(** * Live-audio pipeline of the Guyanese language and culture assistant

    A shallow embedding of [utils/audioHelpers.ts] (base64 and 16-bit PCM
    codec) and of the live-conversation callbacks of [App.tsx] (playback
    scheduling, interruption, teardown, error reporting), followed by the
    properties the specification states about them.

    Conventions.
    - An [ArrayBuffer] is a [list byte]; a [Uint8Array] made by
      [new Uint8Array(len)] owns its buffer and is the list of its bytes,
      and a [Uint8Array] handed to [decodeAudioData] is a view
      ([Uint8Array]) of a buffer; an [Int16Array] is a [list Z] whose
      elements lie in [-32768, 32767]; a JavaScript string is a [string].
    - Audio samples and clock times are JavaScript numbers, finite doubles
      embedded in the rationals [Q].  Every numeric operation of the codec
      (multiplying by 32768, dividing an int16 by 32768, storing the
      quotient as a float32) is exact on finite inputs, so samples carry no
      rounding.  The sums and quotients of the playback clock are not
      exact: they are rounded to the nearest double by [Double.round].
      NaN and the infinities are not rationals and are outside the model.
    - A thrown JavaScript value is a [JsError]; code that can throw returns
      an [outcome]. *)

From Stdlib Require Import ZArith NArith QArith Qminmax Qabs Lqa.
From Stdlib Require Import Qround Qpower Qreduction.
From Stdlib Require Import List String Ascii Bool Lia Arith.
From Stdlib Require Import Init.Byte.
From Stdlib Require Strings.Byte.
From Stdlib Require Import DecimalString RelationClasses.
Import ListNotations.

Local Open Scope string_scope.

(** ** Thrown values and outcomes *)

(** What the code can observe of a thrown value: [instanceof DOMException]
    (a [DOMException] is also an [Error]), [instanceof Error],
    [typeof e === 'string'], or none of these. *)
Inductive JsError : Type :=
| DOMException (name message : string)
| ErrorObj (name message : string)
| StringVal (s : string)
| OtherVal.

Inductive outcome (A : Type) : Type :=
| Ret (a : A)
| Throw (e : JsError).
Arguments Ret {A} a.
Arguments Throw {A} e.

Definition obind {A B} (o : outcome A) (f : A -> outcome B) : outcome B :=
  match o with
  | Ret a => f a
  | Throw e => Throw e
  end.

(** ** JavaScript numbers

    A finite IEEE 754 binary64 value is a rational.  [round] sends a
    rational to the nearest double, ties to the even significand: 53
    significant bits in the normal range, multiples of 2^-1074 below
    2^-1022.  Magnitudes of 2^1024 and beyond, which a double stores as an
    infinity, are outside the model. *)
Module Double.

Definition pow2 (e : Z) : Q := (2 ^ e)%Q.

(** The exponent [e] with [2^e <= x < 2^(e+1)], for a positive [x]. *)
Definition ilog2 (x : Q) : Z :=
  let c := (Z.log2 (Qnum x) - Z.log2 (Zpos (Qden x)))%Z in
  if Qle_bool (pow2 c) x then c else (c - 1)%Z.

(** The nearest integer, a tie going to the even one. *)
Definition nearest_even (x : Q) : Z :=
  let f := Qfloor x in
  match Qcompare (x - inject_Z f) (1 # 2) with
  | Lt => f
  | Gt => (f + 1)%Z
  | Eq => if Z.even f then f else (f + 1)%Z
  end.

(** The exponent of the unit in the last place of the doubles around [x]. *)
Definition ulp_exponent (x : Q) : Z := Z.max (ilog2 (Qabs x) - 52) (-1074).

Definition round (x : Q) : Q :=
  if Qeq_bool x 0 then 0%Q
  else let e := ulp_exponent x in
       Qred (inject_Z (nearest_even (x * pow2 (- e))) * pow2 e).

(** [x + y] and [x / y] on doubles. *)
Definition add (x y : Q) : Q := round (x + y).

Definition div (x y : Q) : Q := round (x / y).

End Double.

(** ** Host functions [btoa] and [atob]

    The browser's base64 primitives, after RFC 4648 section 4 and the
    forgiving-base64 decoder of the WHATWG Infra standard. *)
Module Base64.

Definition alphabet : string :=
  "ABCDEFGHIJKLMNOPQRSTUVWXYZabcdefghijklmnopqrstuvwxyz0123456789+/".

Definition pad : ascii := "="%char.

(** The character of a 6-bit value. *)
Definition char_of (i : N) : ascii :=
  nth (N.to_nat i) (list_ascii_of_string alphabet) pad.

(** The 6-bit value of an alphabet character, [None] outside the alphabet. *)
Definition index_of (c : ascii) : option N :=
  let n := N_of_ascii c in
  if ((65 <=? n) && (n <=? 90))%N then Some (n - 65)%N
  else if ((97 <=? n) && (n <=? 122))%N then Some (n - 71)%N
  else if ((48 <=? n) && (n <=? 57))%N then Some (n + 4)%N
  else if (n =? 43)%N then Some 62%N
  else if (n =? 47)%N then Some 63%N
  else None.

(** Three octets give four 6-bit values; a final group of one or two octets
    gives two or three, the missing low bits being zero. *)
Fixpoint sextets (bs : list N) : list N :=
  match bs with
  | a :: b :: c :: rest =>
      (a / 4 :: (a mod 4) * 16 + b / 16 :: (b mod 16) * 4 + c / 64
         :: c mod 64 :: sextets rest)%N
  | [a; b] => [a / 4; (a mod 4) * 16 + b / 16; (b mod 16) * 4]%N
  | [a] => [a / 4; (a mod 4) * 16]%N
  | [] => []
  end.

Definition padding (len : nat) : list ascii :=
  match (len mod 3)%nat with
  | 1%nat => [pad; pad]
  | 2%nat => [pad]
  | _ => []
  end.

(** [btoa]: the argument is a binary string; a [string] holds only code
    units below 256, so the InvalidCharacterError case cannot arise. *)
Definition btoa (binary : string) : string :=
  let bs := map N_of_ascii (list_ascii_of_string binary) in
  string_of_list_ascii
    (map char_of (sextets bs) ++ padding (List.length bs)).

(** ASCII whitespace: TAB, LF, FF, CR and SPACE. *)
Definition is_whitespace (c : ascii) : bool :=
  let n := N_of_ascii c in
  ((n =? 9) || (n =? 10) || (n =? 12) || (n =? 13) || (n =? 32))%N.

Definition is_pad (c : ascii) : bool := (c =? pad)%char.

(** Removes one or two trailing [=]. *)
Fixpoint strip_padding (l : list ascii) : list ascii :=
  match l with
  | [] => []
  | c :: r =>
      if is_pad c && match r with
                     | [] => true
                     | [c'] => is_pad c'
                     | _ => false
                     end
      then []
      else c :: strip_padding r
  end.

Fixpoint indices (l : list ascii) : option (list N) :=
  match l with
  | [] => Some []
  | c :: r =>
      match index_of c, indices r with
      | Some i, Some is' => Some (i :: is')
      | _, _ => None
      end
  end.

(** Four 6-bit values give three octets; a final group of two or three
    values gives one or two octets, the surplus low bits being dropped. *)
Fixpoint octets (sx : list N) : list N :=
  match sx with
  | s0 :: s1 :: s2 :: s3 :: rest =>
      (s0 * 4 + s1 / 16 :: (s1 mod 16) * 16 + s2 / 4 :: (s2 mod 4) * 64 + s3
         :: octets rest)%N
  | [s0; s1; s2] => [s0 * 4 + s1 / 16; (s1 mod 16) * 16 + s2 / 4]%N
  | [s0; s1] => [s0 * 4 + s1 / 16]%N
  | _ => []
  end.

Definition invalid_character : JsError :=
  DOMException "InvalidCharacterError"
    "Failed to execute 'atob': The string to be decoded is not correctly encoded.".

(** [atob]: strip whitespace; when the length is a multiple of four drop
    one or two trailing [=]; fail on a length of 1 modulo 4 or on a character
    outside the alphabet; decode. *)
Definition atob (data : string) : outcome string :=
  let d := filter (fun c => negb (is_whitespace c)) (list_ascii_of_string data) in
  let d := if (List.length d mod 4 =? 0)%nat then strip_padding d else d in
  if (List.length d mod 4 =? 1)%nat then Throw invalid_character
  else match indices d with
       | None => Throw invalid_character
       | Some sx => Ret (string_of_list_ascii (map ascii_of_N (octets sx)))
       end.

End Base64.

(** ** [utils/audioHelpers.ts] *)

(** [decode]: [atob], then one byte per code unit of the binary string. *)
Definition decode (base64 : string) : outcome (list byte) :=
  obind (Base64.atob base64) (fun binaryString =>
  Ret (map byte_of_ascii (list_ascii_of_string binaryString))).

(** [encode]: one code unit per byte, then [btoa]. *)
Definition encode (bytes : list byte) : string :=
  let binary := string_of_list_ascii (map ascii_of_byte bytes) in
  Base64.btoa binary.

(** *** Typed arrays *)

Definition Z_of_byte (b : byte) : Z := Z.of_N (Strings.Byte.to_N b).

(** The byte of the low eight bits of an integer. *)
Definition byte_of_Z (z : Z) : byte :=
  byte_of_ascii (ascii_of_N (Z.to_N (z mod 256)%Z)).

(** [ToNumber] then [ToInt16] on a finite number, the conversion applied by a
    store into an [Int16Array]: truncate toward zero, reduce modulo 2^16, and
    read the 16 bits as two's complement.  NaN and the infinities, which
    the store turns into 0, are not rationals. *)
Definition truncate (x : Q) : Z := (Qnum x ÷ Zpos (Qden x))%Z.

Definition ToInt16 (x : Q) : Z :=
  let int16bit := (truncate x mod 65536)%Z in
  if (int16bit >=? 32768)%Z then (int16bit - 65536)%Z else int16bit.

(** [new Uint8Array(int16.buffer)]: two bytes per element, low byte first. *)
Definition int16_bytes (n : Z) : list byte :=
  let u := (n mod 65536)%Z in
  [byte_of_Z (u mod 256)%Z; byte_of_Z (u / 256)%Z].

Definition Int16Array_buffer (int16 : list Z) : list byte :=
  flat_map int16_bytes int16.

Definition int16_of_bytes (lo hi : byte) : Z :=
  let u := (Z_of_byte lo + 256 * Z_of_byte hi)%Z in
  if (u >=? 32768)%Z then (u - 65536)%Z else u.

Definition range_error : JsError :=
  ErrorObj "RangeError" "byte length of Int16Array should be a multiple of 2".

(** [new Int16Array(data.buffer)]: throws a RangeError on an odd number of
    bytes. *)
Fixpoint Int16Array_of_buffer (bs : list byte) : outcome (list Z) :=
  match bs with
  | [] => Ret []
  | [_] => Throw range_error
  | lo :: hi :: rest =>
      obind (Int16Array_of_buffer rest) (fun l => Ret (int16_of_bytes lo hi :: l))
  end.

(** *** Audio buffers *)

Record AudioBuffer : Type := {
  numberOfChannels : nat;
  buffer_length : nat;
  sampleRate : Z;
  channels : list (list Q)
}.

(** [buffer.duration], in seconds: the length over the sample rate, as a
    double. *)
Definition duration (b : AudioBuffer) : Q :=
  Double.div (inject_Z (Z.of_nat (buffer_length b))) (inject_Z (sampleRate b)).

Definition not_supported_error : JsError :=
  DOMException "NotSupportedError"
    "Failed to execute 'createBuffer' on 'BaseAudioContext'".

(** Host function [ctx.createBuffer]: a silent buffer.  The Web Audio API
    makes it throw a NotSupportedError when an argument is zero, negative or
    outside its nominal range.  The ranges here are those every host must
    support, 1 to 32 channels and 8000 to 96000 Hz; a host may accept more,
    the model does not.  The number of frames reaches it as an unsigned
    integer, hence the floor division in [decodeAudioData]. *)
Definition createBuffer (numChannels frameCount : nat) (rate : Z)
  : outcome AudioBuffer :=
  if (numChannels =? 0)%nat || (32 <? numChannels)%nat || (frameCount =? 0)%nat
     || (rate <? 8000)%Z || (96000 <? rate)%Z
  then Throw not_supported_error
  else Ret {| numberOfChannels := numChannels;
              buffer_length := frameCount;
              sampleRate := rate;
              channels := repeat (repeat 0%Q frameCount) numChannels |}.

(** The inner loops of [decodeAudioData]:
    [channelData[i] = dataInt16[i * numChannels + channel] / 32768.0]. *)
Definition channel_samples (dataInt16 : list Z) (numChannels frameCount channel : nat)
  : list Q :=
  map (fun i => inject_Z (nth (i * numChannels + channel)%nat dataInt16 0%Z) / 32768)%Q
      (seq 0 frameCount).

(** A [Uint8Array] as [decodeAudioData] receives it: a view of [byteLength]
    bytes, [byteOffset] bytes into an [ArrayBuffer]. *)
Record Uint8Array : Type := {
  buffer : list byte;
  byteOffset : nat;
  byteLength : nat
}.

(** The elements of the view, [data[0]] to [data[byteLength - 1]]. *)
Definition elements (data : Uint8Array) : list byte :=
  firstn (byteLength data) (skipn (byteOffset data) (buffer data)).

(** [new Uint8Array(len)] once filled, as [decode] returns it: the array
    owns its buffer. *)
Definition Uint8Array_of (bytes : list byte) : Uint8Array :=
  {| buffer := bytes; byteOffset := 0; byteLength := List.length bytes |}.

#[warning="-uniform-inheritance"]
Coercion Uint8Array_of : list >-> Uint8Array.

(** [decodeAudioData]; it reads [data.buffer], the whole buffer under the
    view, not the view's own elements.  The context argument only serves
    [createBuffer], and a rejection of the returned promise is a
    [Throw]. *)
Definition decodeAudioData (data : Uint8Array) (rate : Z) (numChannels : nat)
  : outcome AudioBuffer :=
  obind (Int16Array_of_buffer (buffer data)) (fun dataInt16 =>
  let frameCount := (List.length dataInt16 / numChannels)%nat in
  obind (createBuffer numChannels frameCount rate) (fun buffer =>
  Ret {| numberOfChannels := numberOfChannels buffer;
         buffer_length := buffer_length buffer;
         sampleRate := sampleRate buffer;
         channels := map (channel_samples dataInt16 numChannels frameCount)
                         (seq 0 numChannels) |})).

Record Blob : Type := {
  data : string;
  mimeType : string
}.

(** [createBlob]: [int16[i] = data[i] * 32768], then the bytes of the
    [Int16Array] in base64. *)
Definition createBlob (samples : list Q) : Blob :=
  let int16 := map (fun x => ToInt16 (x * 32768)) samples in
  {| data := encode (Int16Array_buffer int16);
     mimeType := "audio/pcm;rate=16000" |}.

(** ** [App.tsx]: the live-conversation pipeline *)

(** *** Host objects *)

(** An [AudioBufferSourceNode]: its identity, its buffer, and whether the
    host makes [stop()] throw on it. *)
Record Source : Type := {
  source_id : nat;
  source_buffer : AudioBuffer;
  stop_throws : bool
}.

(** A [MediaStream], by the identities of its tracks. *)
Record MediaStream : Type := {
  tracks : list nat
}.

(** The visualisation canvas: whether it has a 2d context, and whether
    anything is drawn on it. *)
Record Canvas : Type := {
  context2d : bool;
  painted : bool
}.

(** A reaction registered on the session promise with [.then]. *)
Inductive Reaction : Type :=
| CloseSession
| SendRealtimeInput (media : Blob).

(** Calls on host objects, in the order the code makes them. *)
Inductive Effect : Type :=
| Console (level text : string)
| Alert (text : string)
| OpenSelectKey
| NewAudioContext (ctx : nat) (rate : Z)
| ContextResume (ctx : nat)
| ContextClose (ctx : nat)
| SourceConnect (source : nat)
| SourceStart (source : Source) (when : Q)
| SourceStop (source : nat)
| TrackStop (track : nat)
| NodeDisconnect (node : nat)
| ClearOnAudioProcess (node : nat)
| CancelAnimationFrame (id : N)
| SessionClose (session : nat)
| SessionSend (session : nat) (media : Blob).

(** The component's React state (the [useState] cells the pipeline writes). *)
Record ReactState : Type := {
  textError : option string;
  liveError : option string;
  isLoadingText : bool;
  isLiveApiConnected : bool;
  liveApiConnecting : bool;
  liveInputTranscription : string;
  liveOutputTranscription : string;
  isAssistantSpeaking : bool
}.

Definition set_textError (v : option string) (s : ReactState) : ReactState :=
  {| textError := v; liveError := liveError s;
     isLoadingText := isLoadingText s;
     isLiveApiConnected := isLiveApiConnected s;
     liveApiConnecting := liveApiConnecting s;
     liveInputTranscription := liveInputTranscription s;
     liveOutputTranscription := liveOutputTranscription s;
     isAssistantSpeaking := isAssistantSpeaking s |}.

Definition set_liveError (v : option string) (s : ReactState) : ReactState :=
  {| textError := textError s; liveError := v;
     isLoadingText := isLoadingText s;
     isLiveApiConnected := isLiveApiConnected s;
     liveApiConnecting := liveApiConnecting s;
     liveInputTranscription := liveInputTranscription s;
     liveOutputTranscription := liveOutputTranscription s;
     isAssistantSpeaking := isAssistantSpeaking s |}.

Definition set_isLoadingText (v : bool) (s : ReactState) : ReactState :=
  {| textError := textError s; liveError := liveError s; isLoadingText := v;
     isLiveApiConnected := isLiveApiConnected s;
     liveApiConnecting := liveApiConnecting s;
     liveInputTranscription := liveInputTranscription s;
     liveOutputTranscription := liveOutputTranscription s;
     isAssistantSpeaking := isAssistantSpeaking s |}.

Definition set_isLiveApiConnected (v : bool) (s : ReactState) : ReactState :=
  {| textError := textError s; liveError := liveError s;
     isLoadingText := isLoadingText s; isLiveApiConnected := v;
     liveApiConnecting := liveApiConnecting s;
     liveInputTranscription := liveInputTranscription s;
     liveOutputTranscription := liveOutputTranscription s;
     isAssistantSpeaking := isAssistantSpeaking s |}.

Definition set_liveApiConnecting (v : bool) (s : ReactState) : ReactState :=
  {| textError := textError s; liveError := liveError s;
     isLoadingText := isLoadingText s;
     isLiveApiConnected := isLiveApiConnected s; liveApiConnecting := v;
     liveInputTranscription := liveInputTranscription s;
     liveOutputTranscription := liveOutputTranscription s;
     isAssistantSpeaking := isAssistantSpeaking s |}.

Definition set_liveInputTranscription (v : string) (s : ReactState) : ReactState :=
  {| textError := textError s; liveError := liveError s;
     isLoadingText := isLoadingText s;
     isLiveApiConnected := isLiveApiConnected s;
     liveApiConnecting := liveApiConnecting s; liveInputTranscription := v;
     liveOutputTranscription := liveOutputTranscription s;
     isAssistantSpeaking := isAssistantSpeaking s |}.

Definition set_liveOutputTranscription (v : string) (s : ReactState) : ReactState :=
  {| textError := textError s; liveError := liveError s;
     isLoadingText := isLoadingText s;
     isLiveApiConnected := isLiveApiConnected s;
     liveApiConnecting := liveApiConnecting s;
     liveInputTranscription := liveInputTranscription s;
     liveOutputTranscription := v;
     isAssistantSpeaking := isAssistantSpeaking s |}.

Definition set_isAssistantSpeaking (v : bool) (s : ReactState) : ReactState :=
  {| textError := textError s; liveError := liveError s;
     isLoadingText := isLoadingText s;
     isLiveApiConnected := isLiveApiConnected s;
     liveApiConnecting := liveApiConnecting s;
     liveInputTranscription := liveInputTranscription s;
     liveOutputTranscription := liveOutputTranscription s;
     isAssistantSpeaking := v |}.

(** The component's [useRef] cells; [None] is [null]. *)
Record Refs : Type := {
  audioContextRef : option nat;
  outputAudioContextRef : option nat;
  nextStartTimeRef : Q;
  sourcesRef : list Source;
  mediaStreamRef : option MediaStream;
  scriptProcessorRef : option nat;
  sessionPromiseRef : option nat;
  analyserRef : option nat;
  animationFrameIdRef : option N;
  canvasRef : option Canvas
}.

Definition set_audioContextRef (v : option nat) (s : Refs) : Refs :=
  {| audioContextRef := v; outputAudioContextRef := outputAudioContextRef s;
     nextStartTimeRef := nextStartTimeRef s; sourcesRef := sourcesRef s;
     mediaStreamRef := mediaStreamRef s;
     scriptProcessorRef := scriptProcessorRef s;
     sessionPromiseRef := sessionPromiseRef s; analyserRef := analyserRef s;
     animationFrameIdRef := animationFrameIdRef s;
     canvasRef := canvasRef s |}.

Definition set_outputAudioContextRef (v : option nat) (s : Refs) : Refs :=
  {| audioContextRef := audioContextRef s; outputAudioContextRef := v;
     nextStartTimeRef := nextStartTimeRef s; sourcesRef := sourcesRef s;
     mediaStreamRef := mediaStreamRef s;
     scriptProcessorRef := scriptProcessorRef s;
     sessionPromiseRef := sessionPromiseRef s; analyserRef := analyserRef s;
     animationFrameIdRef := animationFrameIdRef s;
     canvasRef := canvasRef s |}.

Definition set_nextStartTimeRef (v : Q) (s : Refs) : Refs :=
  {| audioContextRef := audioContextRef s;
     outputAudioContextRef := outputAudioContextRef s;
     nextStartTimeRef := v; sourcesRef := sourcesRef s;
     mediaStreamRef := mediaStreamRef s;
     scriptProcessorRef := scriptProcessorRef s;
     sessionPromiseRef := sessionPromiseRef s; analyserRef := analyserRef s;
     animationFrameIdRef := animationFrameIdRef s;
     canvasRef := canvasRef s |}.

Definition set_sourcesRef (v : list Source) (s : Refs) : Refs :=
  {| audioContextRef := audioContextRef s;
     outputAudioContextRef := outputAudioContextRef s;
     nextStartTimeRef := nextStartTimeRef s; sourcesRef := v;
     mediaStreamRef := mediaStreamRef s;
     scriptProcessorRef := scriptProcessorRef s;
     sessionPromiseRef := sessionPromiseRef s; analyserRef := analyserRef s;
     animationFrameIdRef := animationFrameIdRef s;
     canvasRef := canvasRef s |}.

Definition set_mediaStreamRef (v : option MediaStream) (s : Refs) : Refs :=
  {| audioContextRef := audioContextRef s;
     outputAudioContextRef := outputAudioContextRef s;
     nextStartTimeRef := nextStartTimeRef s; sourcesRef := sourcesRef s;
     mediaStreamRef := v; scriptProcessorRef := scriptProcessorRef s;
     sessionPromiseRef := sessionPromiseRef s; analyserRef := analyserRef s;
     animationFrameIdRef := animationFrameIdRef s;
     canvasRef := canvasRef s |}.

Definition set_scriptProcessorRef (v : option nat) (s : Refs) : Refs :=
  {| audioContextRef := audioContextRef s;
     outputAudioContextRef := outputAudioContextRef s;
     nextStartTimeRef := nextStartTimeRef s; sourcesRef := sourcesRef s;
     mediaStreamRef := mediaStreamRef s; scriptProcessorRef := v;
     sessionPromiseRef := sessionPromiseRef s; analyserRef := analyserRef s;
     animationFrameIdRef := animationFrameIdRef s;
     canvasRef := canvasRef s |}.

Definition set_sessionPromiseRef (v : option nat) (s : Refs) : Refs :=
  {| audioContextRef := audioContextRef s;
     outputAudioContextRef := outputAudioContextRef s;
     nextStartTimeRef := nextStartTimeRef s; sourcesRef := sourcesRef s;
     mediaStreamRef := mediaStreamRef s;
     scriptProcessorRef := scriptProcessorRef s; sessionPromiseRef := v;
     analyserRef := analyserRef s;
     animationFrameIdRef := animationFrameIdRef s;
     canvasRef := canvasRef s |}.

Definition set_analyserRef (v : option nat) (s : Refs) : Refs :=
  {| audioContextRef := audioContextRef s;
     outputAudioContextRef := outputAudioContextRef s;
     nextStartTimeRef := nextStartTimeRef s; sourcesRef := sourcesRef s;
     mediaStreamRef := mediaStreamRef s;
     scriptProcessorRef := scriptProcessorRef s;
     sessionPromiseRef := sessionPromiseRef s; analyserRef := v;
     animationFrameIdRef := animationFrameIdRef s;
     canvasRef := canvasRef s |}.

Definition set_animationFrameIdRef (v : option N) (s : Refs) : Refs :=
  {| audioContextRef := audioContextRef s;
     outputAudioContextRef := outputAudioContextRef s;
     nextStartTimeRef := nextStartTimeRef s; sourcesRef := sourcesRef s;
     mediaStreamRef := mediaStreamRef s;
     scriptProcessorRef := scriptProcessorRef s;
     sessionPromiseRef := sessionPromiseRef s; analyserRef := analyserRef s;
     animationFrameIdRef := v; canvasRef := canvasRef s |}.

Definition set_canvasRef (v : option Canvas) (s : Refs) : Refs :=
  {| audioContextRef := audioContextRef s;
     outputAudioContextRef := outputAudioContextRef s;
     nextStartTimeRef := nextStartTimeRef s; sourcesRef := sourcesRef s;
     mediaStreamRef := mediaStreamRef s;
     scriptProcessorRef := scriptProcessorRef s;
     sessionPromiseRef := sessionPromiseRef s; analyserRef := analyserRef s;
     animationFrameIdRef := animationFrameIdRef s; canvasRef := v |}.

(** The whole state: React state, refs, and the host's side: the promise
    reactions registered and not yet run, the calls made on host objects so
    far, and the identity of the next object created. *)
Record AppState : Type := {
  ui : ReactState;
  refs : Refs;
  reactions : list (nat * Reaction);
  trace : list Effect;
  fresh : nat
}.

Definition set_ui (v : ReactState) (s : AppState) : AppState :=
  {| ui := v; refs := refs s; reactions := reactions s; trace := trace s;
     fresh := fresh s |}.

Definition set_refs (v : Refs) (s : AppState) : AppState :=
  {| ui := ui s; refs := v; reactions := reactions s; trace := trace s;
     fresh := fresh s |}.

Definition set_reactions (v : list (nat * Reaction)) (s : AppState) : AppState :=
  {| ui := ui s; refs := refs s; reactions := v; trace := trace s;
     fresh := fresh s |}.

Definition set_trace (v : list Effect) (s : AppState) : AppState :=
  {| ui := ui s; refs := refs s; reactions := reactions s; trace := v;
     fresh := fresh s |}.

Definition set_fresh (v : nat) (s : AppState) : AppState :=
  {| ui := ui s; refs := refs s; reactions := reactions s; trace := trace s;
     fresh := v |}.
(** *** A state and exception monad for the callbacks *)

Definition M (A : Type) : Type := AppState -> outcome A * AppState.

Definition ret {A} (a : A) : M A := fun s => (Ret a, s).

Definition bind {A B} (m : M A) (f : A -> M B) : M B :=
  fun s => match m s with
           | (Ret a, s') => f a s'
           | (Throw e, s') => (Throw e, s')
           end.

Definition throw {A} (e : JsError) : M A := fun s => (Throw e, s).

(** [try { m } catch (e) { h e }]. *)
Definition try_catch {A} (m : M A) (h : JsError -> M A) : M A :=
  fun s => match m s with
           | (Ret a, s') => (Ret a, s')
           | (Throw e, s') => h e s'
           end.

Definition lift {A} (o : outcome A) : M A := fun s => (o, s).
Definition get {A} (f : AppState -> A) : M A := fun s => (Ret (f s), s).
Definition modify (f : AppState -> AppState) : M unit := fun s => (Ret tt, f s).

Declare Scope js_scope.
Delimit Scope js_scope with js.
Notation "x <- m ;; k" := (bind m (fun x => k))
  (at level 61, m at next level, right associativity) : js_scope.
Notation "m ;; k" := (bind m (fun _ => k))
  (at level 61, right associativity) : js_scope.
Local Open Scope js_scope.

Definition when (b : bool) (m : M unit) : M unit :=
  if b then m else ret tt.

Fixpoint forEach {A} (l : list A) (f : A -> M unit) : M unit :=
  match l with
  | [] => ret tt
  | x :: r => f x ;; forEach r f
  end.

Definition exec {A} (m : M A) (s : AppState) : AppState := snd (m s).
Definition result {A} (m : M A) (s : AppState) : outcome A := fst (m s).

Definition emit (e : Effect) : M unit :=
  modify (fun s => set_trace (trace s ++ [e]) s).

Definition on_ui (f : ReactState -> ReactState) : M unit :=
  modify (fun s => set_ui (f (ui s)) s).
Definition on_refs (f : Refs -> Refs) : M unit :=
  modify (fun s => set_refs (f (refs s)) s).

(** The setters returned by [useState]. *)
Definition setTextError v := on_ui (set_textError v).
Definition setLiveError v := on_ui (set_liveError v).
Definition setIsLoadingText v := on_ui (set_isLoadingText v).
Definition setIsLiveApiConnected v := on_ui (set_isLiveApiConnected v).
Definition setLiveApiConnecting v := on_ui (set_liveApiConnecting v).
Definition setIsAssistantSpeaking v := on_ui (set_isAssistantSpeaking v).
Definition setLiveInputTranscription (f : string -> string) :=
  on_ui (fun u => set_liveInputTranscription (f (liveInputTranscription u)) u).
Definition setLiveOutputTranscription (f : string -> string) :=
  on_ui (fun u => set_liveOutputTranscription (f (liveOutputTranscription u)) u).

(** A new host object. *)
Definition new_object : M nat :=
  n <- get fresh ;;
  modify (set_fresh (S n)) ;;
  ret n.

(** *** Strings *)

(** [s.includes(k)]. *)
Fixpoint includes (s k : string) : bool :=
  prefix k s || match s with
                | EmptyString => false
                | String _ r => includes r k
                end.

(** [toLowerCase] on one code unit below 256: A-Z and the capital letters of
    Latin-1 move up by 32. *)
Definition lower_char (c : ascii) : ascii :=
  let n := N_of_ascii c in
  if ((65 <=? n) && (n <=? 90) ||
      (192 <=? n) && (n <=? 222) && negb (n =? 215))%N
  then ascii_of_N (n + 32) else c.

Fixpoint toLowerCase (s : string) : string :=
  match s with
  | EmptyString => EmptyString
  | String c r => String (lower_char c) (toLowerCase r)
  end.

(** The template literal of a non-negative integer. *)
Definition string_of_N (n : N) : string :=
  NilEmpty.string_of_uint (N.to_uint n).

Definition suicideKeywords : list string :=
  ["suicidal"; "kill myself"; "ending it"; "want to die"; "take my own life";
   "can't go on"; "hopeless"; "end my life"; "harm myself"; "suicide"].

Definition checkSuicidalIntent (text : string) : bool :=
  let lowerText := toLowerCase text in
  existsb (fun keyword => includes lowerText keyword) suicideKeywords.

(** A line feed, and the line feed and indentation that end each line of
    the template literal. *)
Definition line_feed : string := String "010"%char EmptyString.

Definition line_break : string := line_feed ++ "                  ".

(** The text of the crisis alert, a template literal of nine lines. *)
Definition crisis_notice : string :=
  "It sounds like you're going through a difficult time. Please know that you're not alone and help is available."
  ++ line_break ++ line_feed ++ line_feed
  ++ "**National Suicide Prevention Lifeline:** 988"
  ++ line_break ++ line_feed ++ line_feed
  ++ "**Crisis Text Line:** Text HOME to 741741"
  ++ line_break ++ line_feed ++ line_feed
  ++ "**Local Resources (example - please search for your local resources):**"
  ++ line_break ++ line_feed
  ++ "*   The Caribbean Voice: https://www.caribbeanvoice.org/"
  ++ line_break ++ line_feed
  ++ "*   Mental Health Association of Guyana: http://mhaguyana.org/"
  ++ line_break ++ line_feed ++ line_feed
  ++ "Please reach out for support. You are important.".

(** *** Playback *)

Definition invalid_state_error : JsError :=
  DOMException "InvalidStateError" "cannot call stop without calling start first".

(** [source.stop()]. *)
Definition source_stop (source : Source) : M unit :=
  emit (SourceStop (source_id source)) ;;
  if stop_throws source then throw invalid_state_error else ret tt.

(** [getOutputAudioContext]: the shared output context, created at 24 kHz
    and resumed on first use. *)
Definition getOutputAudioContext : M nat :=
  current <- get (fun s => outputAudioContextRef (refs s)) ;;
  match current with
  | Some ctx => ret ctx
  | None =>
      ctx <- new_object ;;
      emit (NewAudioContext ctx 24000) ;;
      on_refs (set_outputAudioContextRef (Some ctx)) ;;
      emit (ContextResume ctx) ;;
      ret ctx
  end.

(** [stopAllAudioPlayback]. *)
Definition stopAllAudioPlayback : M unit :=
  sources <- get (fun s => sourcesRef (refs s)) ;;
  forEach sources (fun source =>
    try_catch (source_stop source)
      (fun e => emit (Console "warn"
         "Could not stop audio source, it might have already ended:"))) ;;
  on_refs (set_sourcesRef []) ;;
  on_refs (set_nextStartTimeRef 0) ;;
  setIsAssistantSpeaking false.

(** [handleApiError]. *)
Definition is_abort (error : JsError) : bool :=
  match error with
  | DOMException name _ => (name =? "AbortError")%string
  | _ => false
  end.

Definition errorMessage (error : JsError) (context : string) : string :=
  match error with
  | DOMException _ message => message
  | ErrorObj _ message => message
  | StringVal s => s
  | OtherVal => "An error occurred during " ++ context ++ "."
  end.

(** [handleApiError].  The key selection is called on [window.aistudio],
    which the model takes to be there, as the comment in the code does; on
    a host without it that last call throws a TypeError, after the states
    are set and the alert is shown. *)
Definition handleApiError (error : JsError) (context : string) : M unit :=
  emit (Console "error" ("Error in " ++ context ++ ":")) ;;
  if is_abort error then
    emit (Console "debug" (context ++ " aborted by user.")) ;;
    setTextError None ;;
    setLiveError None ;;
    setIsLoadingText false ;;
    setLiveApiConnecting false
  else
    let errorMessage := errorMessage error context in
    setTextError (Some errorMessage) ;;
    setLiveApiConnecting false ;;
    setLiveError (Some errorMessage) ;;
    when (includes errorMessage "Requested entity was not found.")
      (emit (Alert "API Key might be invalid or not selected. Please select your API key again.") ;;
       emit OpenSelectKey).

(** [stopAudioVisualization]; a frame id is truthy when it is not 0. *)
Definition stopAudioVisualization : M unit :=
  frame <- get (fun s => animationFrameIdRef (refs s)) ;;
  match frame with
  | Some id =>
      when (negb (id =? 0)%N)
        (emit (CancelAnimationFrame id) ;;
         on_refs (set_animationFrameIdRef None))
  | None => ret tt
  end ;;
  canvas <- get (fun s => canvasRef (refs s)) ;;
  match canvas with
  | Some c =>
      when (context2d c)
        (on_refs (set_canvasRef (Some {| context2d := true; painted := false |})))
  | None => ret tt
  end.

(** *** Teardown *)

(** [stopLiveConversation], statement by statement.  First a close
    reaction is registered on the session promise, if the ref holds one, and
    the ref is cleared; the reaction itself runs later, see [run_reaction]. *)
Definition detach_session : M unit :=
  promise <- get (fun s => sessionPromiseRef (refs s)) ;;
  match promise with
  | Some p => modify (fun s => set_reactions (reactions s ++ [(p, CloseSession)]) s)
  | None => ret tt
  end ;;
  on_refs (set_sessionPromiseRef None).

(** Then each resource is released under a null check on its ref. *)
Definition stop_media_stream : M unit :=
  stream <- get (fun s => mediaStreamRef (refs s)) ;;
  match stream with
  | Some ms =>
      forEach (tracks ms) (fun track => emit (TrackStop track)) ;;
      on_refs (set_mediaStreamRef None)
  | None => ret tt
  end.

Definition disconnect_script_processor : M unit :=
  processor <- get (fun s => scriptProcessorRef (refs s)) ;;
  match processor with
  | Some node =>
      emit (NodeDisconnect node) ;;
      emit (ClearOnAudioProcess node) ;;
      on_refs (set_scriptProcessorRef None)
  | None => ret tt
  end.

Definition disconnect_analyser : M unit :=
  analyser <- get (fun s => analyserRef (refs s)) ;;
  match analyser with
  | Some node =>
      emit (NodeDisconnect node) ;;
      on_refs (set_analyserRef None)
  | None => ret tt
  end.

Definition close_input_context : M unit :=
  context <- get (fun s => audioContextRef (refs s)) ;;
  match context with
  | Some ctx =>
      emit (ContextClose ctx) ;;
      on_refs (set_audioContextRef None)
  | None => ret tt
  end.

(** Everything [stopLiveConversation] does once the session ref is
    cleared. *)
Definition release_resources : M unit :=
  stop_media_stream ;;
  disconnect_script_processor ;;
  disconnect_analyser ;;
  close_input_context ;;
  stopAllAudioPlayback ;;
  stopAudioVisualization ;;
  setIsLiveApiConnected false ;;
  setLiveApiConnecting false.

(** [stopLiveConversation]. *)
Definition stopLiveConversation : M unit :=
  detach_session ;;
  release_resources.

(** What the host does with a registered reaction once the session promise
    has settled: on a rejected promise the [.catch] handler logs; on a
    fulfilled one the session method is called, and [.catch] logs what it
    throws ([method_throws]). *)
Definition run_reaction (settled : outcome nat) (method_throws : option JsError)
    (r : Reaction) : M unit :=
  let caught := match r with
                | CloseSession => "Error closing session:"
                | SendRealtimeInput _ => "Error sending realtime input:"
                end in
  match settled with
  | Throw _ => emit (Console "error" caught)
  | Ret session =>
      try_catch
        (match r with
         | CloseSession => emit (SessionClose session)
         | SendRealtimeInput media => emit (SessionSend session media)
         end ;;
         match method_throws with
         | Some e => throw e
         | None =>
             match r with
             | CloseSession => emit (Console "debug" "Session closed by user action.")
             | SendRealtimeInput _ => ret tt
             end
         end)
        (fun _ => emit (Console "error" caught))
  end.

(** *** Capture *)

(** The [onaudioprocess] callback installed by [onopen]: one frame of
    channel 0 is encoded and its send is registered on the session promise,
    if the ref holds one. *)
Definition onaudioprocess (inputData : list Q) : M unit :=
  let pcmBlob := createBlob inputData in
  promise <- get (fun s => sessionPromiseRef (refs s)) ;;
  match promise with
  | Some p =>
      modify (fun s => set_reactions (reactions s ++ [(p, SendRealtimeInput pcmBlob)]) s)
  | None => ret tt
  end.

(** *** Session callbacks *)

(** The fields of a [LiveServerMessage] the callback reads, all under
    [serverContent?.]: a transcription object may be present without text;
    [inlineData] is [modelTurn?.parts?.[0]?.inlineData?.data]. *)
Record LiveServerMessage : Type := {
  inputTranscription : option (option string);
  outputTranscription : option (option string);
  turnComplete : bool;
  interrupted : bool;
  inlineData : option string
}.

(** [prev + text], where an absent text is [undefined]. *)
Definition append_text (text : option string) (prev : string) : string :=
  prev ++ match text with
          | Some t => t
          | None => "undefined"
          end.

(** A string is truthy when it is present and not empty. *)
Definition truthy (text : option string) : option string :=
  match text with
  | Some EmptyString => None
  | other => other
  end.

(** The input transcription text that triggers the crisis notice. *)
Definition alarming (message : LiveServerMessage) : bool :=
  match inputTranscription message with
  | Some text =>
      match truthy text with
      | Some t => checkSuicidalIntent t
      | None => false
      end
  | None => false
  end.

(** The ['ended'] listener of a source scheduled by [onmessage], which
    closes over the message that carried the chunk. *)
Definition source_ended (message : LiveServerMessage) (source : nat) : M unit :=
  on_refs (fun r => set_sourcesRef
     (filter (fun x => negb (source_id x =? source)%nat) (sourcesRef r)) r) ;;
  sources <- get (fun s => sourcesRef (refs s)) ;;
  when ((List.length sources =? 0)%nat && negb (interrupted message))
    (setIsAssistantSpeaking false).

(** The audio branch of [onmessage]: [currentTime] is the reading of the
    output context's clock, [throws] the host's answer for the new source's
    [stop()].  The cursor is a double: [Math.max] is exact and the sum with
    the duration is rounded.  [SourceConnect] does not name the
    destination; the code connects to the output context obtained when the
    conversation started, the one [getOutputAudioContext] returns here
    unless the ref was cleared in between. *)
Definition schedule_chunk (base64EncodedAudioString : string) (currentTime : Q)
    (throws : bool) : M unit :=
  outputAudioContext <- getOutputAudioContext ;;
  on_refs (fun r => set_nextStartTimeRef (Qmax (nextStartTimeRef r) currentTime) r) ;;
  try_catch
    (audioBuffer <- lift (obind (decode base64EncodedAudioString)
                                (fun bytes => decodeAudioData bytes 24000 1)) ;;
     id <- new_object ;;
     let source := {| source_id := id; source_buffer := audioBuffer;
                      stop_throws := throws |} in
     emit (SourceConnect id) ;;
     start <- get (fun s => nextStartTimeRef (refs s)) ;;
     emit (SourceStart source start) ;;
     on_refs (fun r => set_nextStartTimeRef
                         (Double.add (nextStartTimeRef r) (duration audioBuffer)) r) ;;
     on_refs (fun r => set_sourcesRef (sourcesRef r ++ [source]) r) ;;
     setIsAssistantSpeaking true)
    (fun decodeError =>
       handleApiError decodeError "Live API audio decoding" ;;
       setIsAssistantSpeaking false).

(** [onmessage].  The callback is asynchronous, but its only [await] is on
    [decodeAudioData], which itself awaits nothing: the continuation runs in
    the same task, before the next message, timer or audio event is
    delivered, so one call is one step. *)
Definition onmessage (message : LiveServerMessage) (currentTime : Q)
    (throws : bool) : M unit :=
  emit (Console "log" "Live API message:") ;;
  if alarming message then
    emit (Alert crisis_notice) ;;
    stopLiveConversation
  else
    match outputTranscription message with
    | Some text => setLiveOutputTranscription (append_text text)
    | None => ret tt
    end ;;
    match inputTranscription message with
    | Some text => setLiveInputTranscription (append_text text)
    | None => ret tt
    end ;;
    when (turnComplete message)
      (emit (Console "debug" "Live API turn complete") ;;
       setLiveInputTranscription (fun _ => "") ;;
       setLiveOutputTranscription (fun _ => "")) ;;
    match truthy (inlineData message) with
    | Some base64EncodedAudioString =>
        schedule_chunk base64EncodedAudioString currentTime throws
    | None => ret tt
    end ;;
    when (interrupted message)
      (sources <- get (fun s => sourcesRef (refs s)) ;;
       forEach sources (fun source =>
         try_catch (source_stop source)
           (fun e => emit (Console "warn"
              "Could not stop audio source on interruption, it might have already ended:"))) ;;
       on_refs (set_sourcesRef []) ;;
       setIsAssistantSpeaking false ;;
       on_refs (set_nextStartTimeRef 0)).

(** [onerror]: [e.message || 'Unknown error']. *)
Definition onerror (message : option string) : M unit :=
  emit (Console "error" "Live API error:") ;;
  setLiveError (Some ("Live API Error: " ++
                      match truthy message with
                      | Some m => m
                      | None => "Unknown error"
                      end)) ;;
  stopLiveConversation.

(** [onclose], on a [CloseEvent] with the given code and reason. *)
Definition onclose (code : N) (reason : string) : M unit :=
  emit (Console "debug" "Live API session closed") ;;
  setIsLiveApiConnected false ;;
  setLiveApiConnecting false ;;
  when (negb (code =? 1000)%N)
    (setLiveError (Some ("Live API closed unexpectedly: Code " ++ string_of_N code
                         ++ ", Reason: " ++ reason))) ;;
  setLiveInputTranscription (fun _ => "") ;;
  setLiveOutputTranscription (fun _ => "") ;;
  setIsAssistantSpeaking false.

(** ** Vocabulary of the properties *)

(** Value ranges of the codec. *)
Definition octet (n : N) : Prop := (n < 256)%N.
Definition sextet (n : N) : Prop := (n < 64)%N.
Definition in_int16 (n : Z) : Prop := (-32768 <= n < 32768)%Z.

(** [m] never lets an exception escape. *)
Definition returns {A} (m : M A) : Prop :=
  forall s, exists a, result m s = Ret a.

(** Whatever its outcome, [m] takes a state to an [R]-related one. *)
Definition preserves (R : AppState -> AppState -> Prop) {A} (m : M A) : Prop :=
  forall s, R s (exec m s).

(** The host calls made by stopping each source in turn under a
    [try]/[catch] that warns with [label]. *)
Definition stop_calls (label : string) (sources : list Source) : list Effect :=
  flat_map (fun source =>
              SourceStop (source_id source)
                :: if stop_throws source then [Console "warn" label] else [])
           sources.

(** The trace only grows and no source leaves the active set. *)
Definition grows (s s' : AppState) : Prop :=
  (exists added, trace s' = (trace s ++ added)%list) /\
  incl (sourcesRef (refs s)) (sourcesRef (refs s')).

(** The trace only grows and the playback cursor, set and flag stay. *)
Definition keeps_playback (s s' : AppState) : Prop :=
  (exists added, trace s' = (trace s ++ added)%list) /\
  sourcesRef (refs s') = sourcesRef (refs s) /\
  nextStartTimeRef (refs s') = nextStartTimeRef (refs s) /\
  isAssistantSpeaking (ui s') = isAssistantSpeaking (ui s).


(** *** Truncation to an integer

    [t] is [q] with its fraction dropped: the integer next to [q] on the
    side of zero. *)
Definition truncation_of (q : Q) (t : Z) : Prop :=
  (0 <= q -> inject_Z t <= q /\ q < inject_Z t + 1)%Q /\
  (q <= 0 -> inject_Z t - 1 < q /\ q <= inject_Z t)%Q.

(** *** The end state of a teardown *)

(** The releases [stopLiveConversation] makes from refs [r], in order: each
    resource present is released, each one absent is skipped. *)
Definition release_calls (r : Refs) : list Effect :=
  (match mediaStreamRef r with
   | Some ms => map TrackStop (tracks ms)
   | None => []
   end ++
   match scriptProcessorRef r with
   | Some node => [NodeDisconnect node; ClearOnAudioProcess node]
   | None => []
   end ++
   match analyserRef r with
   | Some node => [NodeDisconnect node]
   | None => []
   end ++
   match audioContextRef r with
   | Some ctx => [ContextClose ctx]
   | None => []
   end ++
   stop_calls "Could not stop audio source, it might have already ended:"
     (sourcesRef r) ++
   match animationFrameIdRef r with
   | Some id => if (id =? 0)%N then [] else [CancelAnimationFrame id]
   | None => []
   end)%list.

Definition stopped_refs (r : Refs) : Refs :=
  {| audioContextRef := None;
     outputAudioContextRef := outputAudioContextRef r;
     nextStartTimeRef := 0;
     sourcesRef := [];
     mediaStreamRef := None;
     scriptProcessorRef := None;
     sessionPromiseRef := None;
     analyserRef := None;
     animationFrameIdRef :=
       match animationFrameIdRef r with
       | Some id => if (id =? 0)%N then Some id else None
       | None => None
       end;
     canvasRef :=
       match canvasRef r with
       | Some c => Some (if context2d c
                         then {| context2d := true; painted := false |}
                         else c)
       | None => None
       end |}.

(** The state a teardown leaves: every resource ref null, the playback
    cursor at 0, the flags down, one close reaction registered if a session
    promise was held, and the releases appended to the trace. *)
Definition stopped (s : AppState) : AppState :=
  {| ui := set_liveApiConnecting false
             (set_isLiveApiConnected false
                (set_isAssistantSpeaking false (ui s)));
     refs := stopped_refs (refs s);
     reactions := (reactions s ++
                   match sessionPromiseRef (refs s) with
                   | Some p => [(p, CloseSession)]
                   | None => []
                   end)%list;
     trace := (trace s ++ release_calls (refs s))%list;
     fresh := fresh s |}.

(** *** Example states *)

(** The initial values of the [useState] and [useRef] cells, with the
    visualisation canvas mounted. *)
Definition initial_state : AppState :=
  {| ui := {| textError := None; liveError := None; isLoadingText := false;
              isLiveApiConnected := false; liveApiConnecting := false;
              liveInputTranscription := ""; liveOutputTranscription := "";
              isAssistantSpeaking := false |};
     refs := {| audioContextRef := None; outputAudioContextRef := None;
                nextStartTimeRef := 0; sourcesRef := [];
                mediaStreamRef := None; scriptProcessorRef := None;
                sessionPromiseRef := None; analyserRef := None;
                animationFrameIdRef := None;
                canvasRef := Some {| context2d := true; painted := false |} |};
     reactions := [];
     trace := [];
     fresh := 0 |}.

Definition silence (frames : nat) : AudioBuffer :=
  {| numberOfChannels := 1; buffer_length := frames; sampleRate := 24000;
     channels := [repeat 0%Q frames] |}.

(** A conversation in progress: microphone stream 1 with track 2, input
    context 3, session promise 4, analyser 5, script processor 6, output
    context 0, and two chunks playing, the second of which would throw on
    [stop()]. *)
Definition live_state : AppState :=
  {| ui := {| textError := None; liveError := None; isLoadingText := false;
              isLiveApiConnected := true; liveApiConnecting := false;
              liveInputTranscription := "hello"; liveOutputTranscription := "";
              isAssistantSpeaking := true |};
     refs := {| audioContextRef := Some 3%nat; outputAudioContextRef := Some 0%nat;
                nextStartTimeRef := Double.round (18 # 100);
                sourcesRef := [ {| source_id := 7; source_buffer := silence 1200;
                                   stop_throws := false |};
                                {| source_id := 8; source_buffer := silence 720;
                                   stop_throws := true |} ];
                mediaStreamRef := Some {| tracks := [2%nat] |};
                scriptProcessorRef := Some 6%nat;
                sessionPromiseRef := Some 4%nat; analyserRef := Some 5%nat;
                animationFrameIdRef := Some 1%N;
                canvasRef := Some {| context2d := true; painted := true |} |};
     reactions := [];
     trace := [];
     fresh := 9 |}.

(** The calls that tear the session down: microphone tracks, capture
    nodes, input context, remote session. *)
Definition is_teardown (e : Effect) : bool :=
  match e with
  | TrackStop _ | NodeDisconnect _ | ClearOnAudioProcess _
  | ContextClose _ | SessionClose _ => true
  | _ => false
  end.

(** The calls that give a resource back: the above, and stopping a playback
    source. *)
Definition is_release (e : Effect) : bool :=
  is_teardown e || match e with
                   | SourceStop _ => true
                   | _ => false
                   end.

Definition is_start (e : Effect) : bool :=
  match e with
  | SourceStart _ _ => true
  | _ => false
  end.

(** A call that neither tears the session down nor starts a source. *)
Definition quiet_call (e : Effect) : Prop :=
  is_teardown e = false /\ is_start e = false.

(** The session handle, the microphone stream, the capture nodes and the
    input context are where they were, the connected flag is unchanged and
    no reaction has been registered on the session promise. *)
Definition session_intact (s s' : AppState) : Prop :=
  sessionPromiseRef (refs s') = sessionPromiseRef (refs s) /\
  mediaStreamRef (refs s') = mediaStreamRef (refs s) /\
  scriptProcessorRef (refs s') = scriptProcessorRef (refs s) /\
  analyserRef (refs s') = analyserRef (refs s) /\
  audioContextRef (refs s') = audioContextRef (refs s) /\
  isLiveApiConnected (ui s') = isLiveApiConnected (ui s) /\
  reactions s' = reactions s.

(** Playback is as it was: the same sources are active, and no call
    released a resource, stopped a source or started one. *)
Definition playback_intact (s s' : AppState) : Prop :=
  sourcesRef (refs s') = sourcesRef (refs s) /\
  exists added, trace s' = (trace s ++ added)%list /\
                Forall (fun e => is_release e = false /\ is_start e = false) added.

(** The message of a thrown [Error], a [DOMException] included. *)
Definition thrown_with (error : JsError) (message : string) : Prop :=
  exists name, error = DOMException name message \/ error = ErrorObj name message.

(** The session is intact, the live error is unchanged and only quiet calls
    were made. *)
Definition undisturbed (s s' : AppState) : Prop :=
  session_intact s s' /\
  liveError (ui s') = liveError (ui s) /\
  exists added, trace s' = (trace s ++ added)%list /\ Forall quiet_call added.

(** *** The playback schedule *)

(** One message as it arrives: the reading of the output clock when its
    callback runs, and the host's answer for [stop()] on the source it may
    create. *)
Record Arrival : Type := {
  arrival_message : LiveServerMessage;
  arrival_clock : Q;
  arrival_stop_throws : bool
}.

(** Messages handled one after the other, in delivery order. *)
Fixpoint deliver (arrivals : list Arrival) : M unit :=
  match arrivals with
  | [] => ret tt
  | a :: rest =>
      onmessage (arrival_message a) (arrival_clock a) (arrival_stop_throws a) ;;
      deliver rest
  end.

(** No reset happens on this arrival: the message is not an interruption
    and does not trigger the crisis notice, which stops the conversation. *)
Definition quiet (a : Arrival) : Prop :=
  interrupted (arrival_message a) = false /\ alarming (arrival_message a) = false.

(** The start time and duration of every [source.start] call of a trace. *)
Definition scheduled (tr : list Effect) : list (Q * Q) :=
  flat_map (fun e => match e with
                     | SourceStart source when =>
                         [(when, duration (source_buffer source))]
                     | _ => []
                     end) tr.

(** The duration of the chunk a payload decodes to at 24 kHz mono, if it
    decodes. *)
Definition chunk_duration (base64 : string) : option Q :=
  match obind (decode base64) (fun bytes => decodeAudioData bytes 24000 1) with
  | Ret audioBuffer => Some (duration audioBuffer)
  | Throw _ => None
  end.

(** The schedule the handler computes: on the arrival of a chunk the cursor
    moves to the maximum of the cursor and the clock; a chunk that decodes
    starts there and advances the cursor by its duration, the sum being a
    double.  The result is the list of (start, duration) and the final
    cursor. *)
Fixpoint plan (cursor : Q) (arrivals : list Arrival) : list (Q * Q) * Q :=
  match arrivals with
  | [] => ([], cursor)
  | a :: rest =>
      match truthy (inlineData (arrival_message a)) with
      | None => plan cursor rest
      | Some base64 =>
          let start := Qmax cursor (arrival_clock a) in
          match chunk_duration base64 with
          | Some d => let (l, final) := plan (Double.add start d) rest in
                      ((start, d) :: l, final)
          | None => plan start rest
          end
      end
  end.





(** The [source.start] calls and the cursor are left as they are. *)
Definition keeps_schedule (s s' : AppState) : Prop :=
  scheduled (trace s') = scheduled (trace s) /\
  nextStartTimeRef (refs s') = nextStartTimeRef (refs s).

(** The payload of a chunk of silence of the given number of frames, and the
    message that carries it. *)
Definition silent_payload (frames : nat) : string :=
  encode (repeat "000"%byte (2 * frames)).

Definition audio_message (base64 : string) : LiveServerMessage :=
  {| inputTranscription := None; outputTranscription := None;
     turnComplete := false; interrupted := false;
     inlineData := Some base64 |}.

(** The nominal turn of the specification: chunks of 0.05 s and 0.03 s
    arrive when the output clock reads 0.10 s and 0.14 s, each reading the
    nearest double. *)
Definition nominal_turn : list Arrival :=
  [ {| arrival_message := audio_message (silent_payload 1200);
       arrival_clock := Double.round (10 # 100); arrival_stop_throws := false |};
    {| arrival_message := audio_message (silent_payload 720);
       arrival_clock := Double.round (14 # 100); arrival_stop_throws := false |} ].


(** A message that interrupts the assistant, and one whose payload is three
    bytes long, which is not a whole number of 16-bit samples. *)
Definition interruption : LiveServerMessage :=
  {| inputTranscription := None; outputTranscription := None;
     turnComplete := false; interrupted := true; inlineData := None |}.

Definition truncated_chunk : LiveServerMessage := audio_message "AAAA".

(** ** More of [App.tsx]: speech playback, start-up and unmount *)

(** The message [playGeneratedAudio] shows for what its [try] block threw. *)
Definition audio_error_message (error : JsError) : string :=
  match error with
  | DOMException name message => "Audio Error: " ++ name ++ " - " ++ message
  | ErrorObj _ message => "Audio Error: " ++ message
  | _ => "Failed to decode or play audio."
  end.

(** The ['ended'] listener of a source started by [playGeneratedAudio]. *)
Definition speech_ended (source : nat) : M unit :=
  on_refs (fun r => set_sourcesRef
     (filter (fun x => negb (source_id x =? source)%nat) (sourcesRef r)) r) ;;
  sources <- get (fun s => sourcesRef (refs s)) ;;
  when (List.length sources =? 0)%nat (setIsAssistantSpeaking false).

(** [playGeneratedAudio]: [currentTime] is the reading of the output clock
    at [source.start], [throws] the host's answer for the new source's
    [stop()].  As in [onmessage], the only [await] is on [decodeAudioData]. *)
Definition playGeneratedAudio (base64Audio : string) (currentTime : Q)
    (throws : bool) : M bool :=
  setTextError None ;;
  stopAllAudioPlayback ;;
  outputAudioContext <- getOutputAudioContext ;;
  try_catch
    (audioBuffer <- lift (obind (decode base64Audio)
                                (fun decodedBytes =>
                                   decodeAudioData decodedBytes 24000 1)) ;;
     id <- new_object ;;
     let source := {| source_id := id; source_buffer := audioBuffer;
                      stop_throws := throws |} in
     emit (SourceConnect id) ;;
     emit (SourceStart source currentTime) ;;
     on_refs (fun r => set_sourcesRef (sourcesRef r ++ [source]) r) ;;
     setIsAssistantSpeaking true ;;
     ret true)
    (fun error =>
       setIsAssistantSpeaking false ;;
       emit (Console "error" "Error during audio decoding or playback:") ;;
       setTextError (Some (audio_error_message error)) ;;
       ret false).

(** [handleTextToSpeech].  [response] is what the awaited
    [ai.models.generateContent] call gives: a rejection, or the value of
    [response.candidates?.[0]?.content?.parts?.[0]?.inlineData?.data]; the
    voice name only goes into the request.  The continuation is run with no
    other callback in between. *)
Definition handleTextToSpeech (textToSpeak voiceName : string)
    (response : outcome (option string)) (currentTime : Q) (throws : bool)
  : M bool :=
  setTextError None ;;
  match textToSpeak with
  | EmptyString => ret false
  | _ =>
      try_catch
        (data <- lift response ;;
         match truthy data with
         | Some base64Audio =>
             playGeneratedAudio base64Audio currentTime throws ;;
             ret true
         | None => throw (ErrorObj "Error" "No audio data received for TTS.")
         end)
        (fun error =>
           handleApiError error "text-to-speech" ;;
           ret false)
  end.

(** What the host answers to [startLiveConversation]: whether
    [window.aistudio] and its two functions exist, what
    [hasSelectedApiKey()], [openSelectKey()] and [getUserMedia()] resolve or
    reject with. *)
Record StartEnv : Type := {
  aistudio_available : bool;
  hasSelectedApiKey : outcome bool;
  openSelectKey : outcome unit;
  getUserMedia : outcome MediaStream
}.

Definition sdk_unavailable : JsError :=
  ErrorObj "Error"
    "AI Studio SDK functions are not available. Ensure you are running in the correct environment.".

(** [startLiveConversation], up to the connection attempt: the session
    promise returned by [ai.live.connect] is a new host object, and its
    callbacks are [onmessage], [onerror] and [onclose] above.
    [API_KEY_BILLING_URL] is the constant of [./constants].  The awaited
    answers are taken with no other callback in between. *)
Definition startLiveConversation (API_KEY_BILLING_URL : string) (env : StartEnv)
  : M unit :=
  setLiveApiConnecting true ;;
  setLiveError None ;;
  setLiveInputTranscription (fun _ => "") ;;
  setLiveOutputTranscription (fun _ => "") ;;
  try_catch
    (if negb (aistudio_available env) then throw sdk_unavailable
     else
       hasKey <- lift (hasSelectedApiKey env) ;;
       when (negb hasKey)
         (emit (Alert ("Please select your API key before starting a live conversation. You can find billing information at "
                       ++ API_KEY_BILLING_URL)) ;;
          emit OpenSelectKey ;;
          lift (openSelectKey env)) ;;
       stream <- lift (getUserMedia env) ;;
       on_refs (set_mediaStreamRef (Some stream)) ;;
       inputAudioContext <- new_object ;;
       emit (NewAudioContext inputAudioContext 16000) ;;
       on_refs (set_audioContextRef (Some inputAudioContext)) ;;
       outputCtx <- getOutputAudioContext ;;
       sessionPromise <- new_object ;;
       on_refs (set_sessionPromiseRef (Some sessionPromise)))
    (fun error =>
       handleApiError error "Live API connection" ;;
       stopLiveConversation).

(** The cleanup the component's effect returns, run on unmount. *)
Definition unmount : M unit :=
  stopLiveConversation ;;
  output <- get (fun s => outputAudioContextRef (refs s)) ;;
  match output with
  | Some ctx =>
      emit (ContextClose ctx) ;;
      on_refs (set_outputAudioContextRef None)
  | None => ret tt
  end.

(** ** Vocabulary of the further properties *)

(** Two channels sample by sample: left, right, left, right. *)
Fixpoint interleave (left right : list Z) : list Z :=
  match left, right with
  | l :: ls, r :: rs => l :: r :: interleave ls rs
  | _, _ => []
  end.

(** The int16 value a decoded sample stands for. *)
Definition normalized (v : Z) : Q := (inject_Z v / 32768)%Q.

(** Everything but the errors and the two busy flags is as it was. *)
Definition only_errors_changed (s s' : AppState) : Prop :=
  refs s' = refs s /\ reactions s' = reactions s /\ fresh s' = fresh s /\
  isLiveApiConnected (ui s') = isLiveApiConnected (ui s) /\
  isAssistantSpeaking (ui s') = isAssistantSpeaking (ui s) /\
  liveInputTranscription (ui s') = liveInputTranscription (ui s) /\
  liveOutputTranscription (ui s') = liveOutputTranscription (ui s).

(** A conversation about to start: the key is selected and the microphone
    is granted, or refused. *)
Definition granted : StartEnv :=
  {| aistudio_available := true; hasSelectedApiKey := Ret true;
     openSelectKey := Ret tt;
     getUserMedia := Ret {| tracks := [11%nat] |} |}.

Definition refused : StartEnv :=
  {| aistudio_available := true; hasSelectedApiKey := Ret true;
     openSelectKey := Ret tt;
     getUserMedia := Throw (DOMException "NotAllowedError" "Permission denied") |}.

(** The two transcription buffers are as they were. *)
Definition keeps_transcripts (s s' : AppState) : Prop :=
  liveInputTranscription (ui s') = liveInputTranscription (ui s) /\
  liveOutputTranscription (ui s') = liveOutputTranscription (ui s).

(** The calls [getOutputAudioContext] makes from refs [r] when the next
    object identity is [n]: none if the context exists. *)
Definition output_context_calls (r : Refs) (n : nat) : list Effect :=
  match outputAudioContextRef r with
  | Some _ => []
  | None => [NewAudioContext n 24000; ContextResume n]
  end.

(** What the [try] block of [startLiveConversation] throws under [env], if
    anything: the steps are taken in order and the first failure wins. *)
Definition start_failure (env : StartEnv) : option JsError :=
  if negb (aistudio_available env) then Some sdk_unavailable
  else match hasSelectedApiKey env with
       | Throw e => Some e
       | Ret hasKey =>
           match (if hasKey then Ret tt else openSelectKey env) with
           | Throw e => Some e
           | Ret _ =>
               match getUserMedia env with
               | Throw e => Some e
               | Ret _ => None
               end
           end
       end.

(** Whether [startLiveConversation] prompts for a key under [env]. *)
Definition prompts (env : StartEnv) : bool :=
  aistudio_available env &&
  match hasSelectedApiKey env with
  | Ret false => true
  | _ => false
  end.

(** No resource of a conversation is held. *)
Definition nothing_held (r : Refs) : Prop :=
  sessionPromiseRef r = None /\ mediaStreamRef r = None /\
  audioContextRef r = None /\ scriptProcessorRef r = None /\
  analyserRef r = None /\ sourcesRef r = [].

(** The state a successful [startLiveConversation] leaves: the stream, a
    new input context and a new session promise in their refs, the output
    context created if there was none, the connecting flag up. *)
Definition started (stream : MediaStream) (prompted : bool) (url : string)
    (s : AppState) : AppState :=
  let input := fresh s in
  let output := match outputAudioContextRef (refs s) with
                | Some ctx => ctx
                | None => S (fresh s)
                end in
  let promise := match outputAudioContextRef (refs s) with
                 | Some _ => S (fresh s)
                 | None => S (S (fresh s))
                 end in
  {| ui := set_liveOutputTranscription ""
             (set_liveInputTranscription ""
                (set_liveError None (set_liveApiConnecting true (ui s))));
     refs := set_sessionPromiseRef (Some promise)
               (set_outputAudioContextRef (Some output)
                  (set_audioContextRef (Some input)
                     (set_mediaStreamRef (Some stream) (refs s))));
     reactions := reactions s;
     trace := (trace s
                 ++ (if prompted
                     then [Alert ("Please select your API key before starting a live conversation. You can find billing information at "
                                  ++ url);
                           OpenSelectKey]
                     else [])
                 ++ NewAudioContext input 16000
                 :: output_context_calls (refs s) (S (fresh s)))%list;
     fresh := S promise |}.

(** The state [unmount] leaves: a teardown, then the output context, if one
    was ever created, closed and forgotten. *)
Definition unmounted (s : AppState) : AppState :=
  match outputAudioContextRef (refs s) with
  | Some ctx =>
      set_refs (set_outputAudioContextRef None (refs (stopped s)))
        (set_trace (trace (stopped s) ++ [ContextClose ctx])%list (stopped s))
  | None => stopped s
  end.

(** The active set is untouched and no object is created. *)
Definition keeps_sources (s s' : AppState) : Prop :=
  sourcesRef (refs s') = sourcesRef (refs s) /\ fresh s' = fresh s.


(** * Properties *)

(** ** Rounding to the nearest double *)

Module DoubleFacts.
Import Double.
Local Open Scope Q_scope.

Lemma pow2_pos e : 0 < pow2 e.
Proof. apply Qpower_0_lt. reflexivity. Qed.

Lemma pow2_add a b : pow2 (a + b) == pow2 a * pow2 b.
Proof. apply Qpower_plus. discriminate. Qed.

Lemma pow2_le a b : (a <= b)%Z -> pow2 a <= pow2 b.
Proof. intros H. apply Qpower_le_compat_l; [exact H | discriminate]. Qed.

Lemma pow2_lt_inv a b : pow2 a < pow2 b -> (a < b)%Z.
Proof.
  intros H. destruct (Z.lt_ge_cases a b) as [Hlt|Hge]; [exact Hlt|].
  apply pow2_le in Hge. lra.
Qed.


Lemma pow2_Z e : (0 <= e)%Z -> pow2 e == inject_Z (2 ^ e).
Proof. intros H. unfold pow2. now rewrite (Zpower_Qpower 2 e H). Qed.

Lemma pow2_cancel e : pow2 e * pow2 (- e) == 1.
Proof. rewrite <- pow2_add. now replace (e + - e)%Z with 0%Z by lia. Qed.


(** Scaling both sides of a comparison by a power of two. *)
Lemma scale_lt x y e : x * pow2 e < y * pow2 e <-> x < y.
Proof.
  pose proof (pow2_pos e) as H. split; intros Hlt.
  - apply Qmult_lt_r in Hlt; assumption.
  - apply Qmult_lt_r; assumption.
Qed.

Lemma scale_le x y e : x * pow2 e <= y * pow2 e <-> x <= y.
Proof.
  pose proof (pow2_pos e) as H. split; intros Hle.
  - apply Qmult_le_r in Hle; assumption.
  - apply Qmult_le_r; assumption.
Qed.

Lemma ilog2_spec x : 0 < x -> pow2 (ilog2 x) <= x /\ x < pow2 (ilog2 x + 1).
Proof.
  intros Hx. destruct x as [n d].
  assert (Hn : (0 < n)%Z) by (unfold Qlt in Hx; cbn in Hx; lia).
  unfold ilog2. cbn [Qnum Qden].
  set (a := Z.log2 n). set (b := Z.log2 (Z.pos d)).
  pose proof (Z.log2_nonneg n) as Ha. pose proof (Z.log2_nonneg (Z.pos d)) as Hb.
  fold a in Ha. fold b in Hb.
  destruct (Z.log2_spec n Hn) as [Ha1 Ha2]. fold a in Ha1, Ha2.
  destruct (Z.log2_spec (Z.pos d) ltac:(lia)) as [Hb1 Hb2]. fold b in Hb1, Hb2.
  assert (Hup : n # d < pow2 (a - b + 1)).
  { apply (scale_lt _ _ b).
    replace (a - b + 1)%Z with ((a + 1) + - b)%Z by lia.
    rewrite pow2_add, <- Qmult_assoc, (Qmult_comm (pow2 (- b))), pow2_cancel, Qmult_1_r.
    rewrite (pow2_Z b Hb), (pow2_Z (a + 1)) by lia.
    unfold Qlt, Qmult, inject_Z. cbn [Qnum Qden]. rewrite Pos.mul_1_r, Z.mul_1_r.
    change (Z.succ a) with (a + 1)%Z in Ha2.
    generalize dependent (2 ^ (a + 1))%Z. generalize dependent (2 ^ b)%Z.
    intros. nia. }
  assert (Hlow : pow2 (a - b - 1) <= n # d).
  { apply (scale_le _ _ (b + 1)).
    replace (a - b - 1)%Z with (a + - (b + 1))%Z by lia.
    rewrite pow2_add, <- Qmult_assoc, (Qmult_comm (pow2 (- (b + 1)))), pow2_cancel, Qmult_1_r.
    rewrite (pow2_Z a Ha), (pow2_Z (b + 1)) by lia.
    unfold Qle, Qmult, inject_Z. cbn [Qnum Qden]. rewrite Pos.mul_1_r, Z.mul_1_r.
    change (Z.succ b) with (b + 1)%Z in Hb2.
    generalize dependent (2 ^ (b + 1))%Z. generalize dependent (2 ^ a)%Z.
    intros. nia. }
  destruct (Qle_bool (pow2 (a - b)) (n # d)) eqn:E.
  - apply Qle_bool_iff in E. split; assumption.
  - split; [exact Hlow|].
    replace (a - b - 1 + 1)%Z with (a - b)%Z by lia.
    apply Qnot_le_lt. intros H. apply Qle_bool_iff in H. congruence.
Qed.

Lemma ilog2_unique x e : pow2 e <= x -> x < pow2 (e + 1) -> ilog2 x = e.
Proof.
  intros H1 H2.
  assert (Hx : 0 < x) by (pose proof (pow2_pos e); lra).
  destruct (ilog2_spec x Hx) as [H3 H4].
  assert (pow2 e < pow2 (ilog2 x + 1)) as A by lra.
  assert (pow2 (ilog2 x) < pow2 (e + 1)) as B by lra.
  apply pow2_lt_inv in A, B. lia.
Qed.




(** *** Nearest integer *)







(** *** Rounding *)

Lemma ilog2_compat x y : 0 < x -> x == y -> ilog2 x = ilog2 y.
Proof.
  intros Hx E. destruct (ilog2_spec x Hx) as [H1 H2].
  symmetry. apply ilog2_unique; lra.
Qed.

Lemma nearest_even_compat x y : x == y -> nearest_even x = nearest_even y.
Proof.
  intros E.
  assert (Hf : Qfloor x = Qfloor y).
  { apply Z.le_antisymm; apply Qfloor_resp_le; lra. }
  unfold nearest_even. rewrite Hf.
  assert (Hc : Qcompare (x - inject_Z (Qfloor y)) (1 # 2)
               = Qcompare (y - inject_Z (Qfloor y)) (1 # 2)).
  { apply Qcompare_comp; [|reflexivity]. lra. }
  now rewrite Hc.
Qed.

Lemma ulp_exponent_pos x : 0 < x -> ulp_exponent x = Z.max (ilog2 x - 52) (-1074).
Proof.
  intros Hx. unfold ulp_exponent.
  rewrite (ilog2_compat (Qabs x) x); [reflexivity| |];
    rewrite Qabs_pos; lra.
Qed.


Lemma round_zero x : x == 0 -> round x = 0.
Proof. intros E. unfold round. apply Qeq_bool_iff in E. now rewrite E. Qed.

Lemma round_eq x :
  0 < x ->
  round x == inject_Z (nearest_even (x * pow2 (- ulp_exponent x))) * pow2 (ulp_exponent x).
Proof.
  intros Hx. unfold round. destruct (Qeq_bool x 0) eqn:E.
  - apply Qeq_bool_iff in E. lra.
  - apply Qred_correct.
Qed.

Lemma round_compat x y : x == y -> round x == round y.
Proof.
  intros E. destruct (Qlt_le_dec 0 x) as [Hx|Hx].
  - rewrite (round_eq x Hx), (round_eq y) by lra.
    rewrite !ulp_exponent_pos by lra. rewrite (ilog2_compat x y Hx E).
    rewrite (nearest_even_compat (x * _) (y * pow2 (- Z.max (ilog2 y - 52) (-1074)))).
    + reflexivity.
    + now rewrite E.
  - destruct (Qeq_dec x 0) as [Z|N].
    + rewrite (round_zero x Z), (round_zero y); [reflexivity | lra].
    + unfold round.
      destruct (Qeq_bool x 0) eqn:Ex; [apply Qeq_bool_iff in Ex; contradiction|].
      destruct (Qeq_bool y 0) eqn:Ey; [apply Qeq_bool_iff in Ey; lra|].
      rewrite !Qred_correct.
      assert (Hu : ulp_exponent x = ulp_exponent y).
      { unfold ulp_exponent. f_equal. f_equal.
        apply ilog2_compat.
        - apply Qabs_case; intros; lra.
        - now rewrite E. }
      rewrite Hu.
      rewrite (nearest_even_compat (x * _) (y * pow2 (- ulp_exponent y))).
      * reflexivity.
      * now rewrite E.
Qed.











End DoubleFacts.
(** * Properties *)

(** ** The base64 host functions *)

Example btoa_Man : Base64.btoa "Man" = "TWFu". Proof. reflexivity. Qed.
Example btoa_Ma : Base64.btoa "Ma" = "TWE=". Proof. reflexivity. Qed.
Example btoa_M : Base64.btoa "M" = "TQ==". Proof. reflexivity. Qed.
Example atob_Man : Base64.atob "TWFu" = Ret "Man". Proof. reflexivity. Qed.
Example atob_Ma : Base64.atob "TW E=" = Ret "Ma". Proof. reflexivity. Qed.
Example atob_M : Base64.atob "TQ" = Ret "M". Proof. reflexivity. Qed.
Example atob_bad : Base64.atob "TQ=" = Throw Base64.invalid_character.
Proof. reflexivity. Qed.

Section Base64Facts.
Import Base64.

(** Lists are consumed three octets at a time. *)
Lemma list_ind3 {A} (P : list A -> Prop) :
  P [] -> (forall a, P [a]) -> (forall a b, P [a; b]) ->
  (forall a b c r, P r -> P (a :: b :: c :: r)) ->
  forall l, P l.
Proof.
  intros H0 H1 H2 H3 l.
  enough (P l /\ (forall a, P (a :: l)) /\ (forall a b, P (a :: b :: l))) by tauto.
  induction l as [|x l [IH0 [IH1 IH2]]].
  - auto.
  - repeat split; auto.
Qed.

Lemma index_of_char_of i : (i < 64)%N -> index_of (char_of i) = Some i.
Proof.
  intros Hi.
  rewrite <- (N2Nat.id i) in *.
  assert (Hn : (N.to_nat i < 64)%nat) by lia.
  clear Hi. revert Hn. generalize (N.to_nat i) as n. intros n Hn.
  do 64 (destruct n as [|n]; [reflexivity|]).
  lia.
Qed.

Lemma alphabet_char_plain c :
  index_of c <> None -> is_whitespace c = false /\ is_pad c = false.
Proof.
  destruct c as [[] [] [] [] [] [] [] []]; vm_compute; intuition congruence.
Qed.

Lemma char_of_plain i :
  (i < 64)%N -> is_whitespace (char_of i) = false /\ is_pad (char_of i) = false.
Proof.
  intros Hi. apply alphabet_char_plain.
  rewrite (index_of_char_of i Hi). discriminate.
Qed.

Lemma sextets_bounded bs : Forall octet bs -> Forall sextet (sextets bs).
Proof.
  unfold octet, sextet.
  induction bs as [|a|a b|a b c r IH] using list_ind3; intros H; simpl.
  - constructor.
  - inversion_clear H. repeat constructor.
    + apply N.Div0.div_lt_upper_bound; lia.
    + assert (a mod 4 < 4)%N by (apply N.mod_lt; lia). lia.
  - inversion_clear H as [|? ? Ha H']; inversion_clear H' as [|? ? Hb _].
    assert (a mod 4 < 4)%N by (apply N.mod_lt; lia).
    assert (b mod 16 < 16)%N by (apply N.mod_lt; lia).
    assert (b / 16 < 16)%N by (apply N.Div0.div_lt_upper_bound; lia).
    repeat constructor; try lia.
    apply N.Div0.div_lt_upper_bound; lia.
  - inversion_clear H as [|? ? Ha H']; inversion_clear H' as [|? ? Hb H''];
      inversion_clear H'' as [|? ? Hc Hr].
    assert (a mod 4 < 4)%N by (apply N.mod_lt; lia).
    assert (b mod 16 < 16)%N by (apply N.mod_lt; lia).
    assert (b / 16 < 16)%N by (apply N.Div0.div_lt_upper_bound; lia).
    assert (c / 64 < 4)%N by (apply N.Div0.div_lt_upper_bound; lia).
    assert (c mod 64 < 64)%N by (apply N.mod_lt; lia).
    assert (a / 4 < 64)%N by (apply N.Div0.div_lt_upper_bound; lia).
    repeat constructor; try lia. auto.
Qed.

(** Regrouping the bits gives the octets back. *)
Lemma octets_sextets bs : Forall octet bs -> octets (sextets bs) = bs.
Proof.
  unfold octet.
  induction bs as [|a|a b|a b c r IH] using list_ind3; intros H; simpl.
  - reflexivity.
  - f_equal. rewrite N.div_mul by lia.
    rewrite (N.div_mod a 4) at 3 by lia. lia.
  - inversion_clear H as [|? ? Ha H']; inversion_clear H' as [|? ? Hb _].
    assert (b / 16 < 16)%N by (apply N.Div0.div_lt_upper_bound; lia).
    assert (Ea : ((a mod 4 * 16 + b / 16) / 16 = a mod 4)%N).
    { rewrite N.add_comm, N.div_add by lia. rewrite N.div_small; lia. }
    assert (Eb : ((a mod 4 * 16 + b / 16) mod 16 = b / 16)%N).
    { rewrite N.add_comm, N.Div0.mod_add. apply N.mod_small; lia. }
    rewrite Ea, Eb, N.div_mul by lia.
    rewrite (N.div_mod a 4) at 3 by lia.
    rewrite (N.div_mod b 16) at 3 by lia.
    f_equal; [lia|f_equal; lia].
  - inversion_clear H as [|? ? Ha H']; inversion_clear H' as [|? ? Hb H''];
      inversion_clear H'' as [|? ? Hc Hr].
    assert (b / 16 < 16)%N by (apply N.Div0.div_lt_upper_bound; lia).
    assert (c / 64 < 4)%N by (apply N.Div0.div_lt_upper_bound; lia).
    assert (Ea : ((a mod 4 * 16 + b / 16) / 16 = a mod 4)%N).
    { rewrite N.add_comm, N.div_add by lia. rewrite N.div_small; lia. }
    assert (Eb : ((a mod 4 * 16 + b / 16) mod 16 = b / 16)%N).
    { rewrite N.add_comm, N.Div0.mod_add. apply N.mod_small; lia. }
    assert (Ec : ((b mod 16 * 4 + c / 64) / 4 = b mod 16)%N).
    { rewrite N.add_comm, N.div_add by lia. rewrite N.div_small; lia. }
    assert (Ed : ((b mod 16 * 4 + c / 64) mod 4 = c / 64)%N).
    { rewrite N.add_comm, N.Div0.mod_add. apply N.mod_small; lia. }
    rewrite Ea, Eb, Ec, Ed, (IH Hr).
    rewrite (N.div_mod a 4) at 3 by lia.
    rewrite (N.div_mod b 16) at 3 by lia.
    rewrite (N.div_mod c 64) at 3 by lia.
    f_equal; [lia|f_equal; [lia|f_equal; lia]].
Qed.

Lemma indices_char_of sx :
  Forall sextet sx -> indices (map char_of sx) = Some sx.
Proof.
  induction 1 as [|i sx Hi _ IH]; simpl.
  - reflexivity.
  - rewrite (index_of_char_of i Hi), IH. reflexivity.
Qed.

Lemma filter_plain (l : list ascii) :
  Forall (fun c => is_whitespace c = false) l ->
  filter (fun c => negb (is_whitespace c)) l = l.
Proof.
  induction 1 as [|c l Hc _ IH]; simpl.
  - reflexivity.
  - rewrite Hc, IH. reflexivity.
Qed.

Lemma strip_padding_app (x p : list ascii) :
  Forall (fun c => is_pad c = false) x ->
  p = [] \/ p = [pad] \/ p = [pad; pad] ->
  strip_padding (x ++ p) = x.
Proof.
  intros Hx Hp. induction Hx as [|c x Hc _ IH]; simpl.
  - destruct Hp as [-> | [-> | ->]]; reflexivity.
  - rewrite Hc, IH. reflexivity.
Qed.

Lemma padding_cases n :
  padding n = [] \/ padding n = [pad] \/ padding n = [pad; pad].
Proof.
  unfold padding. destruct (n mod 3)%nat as [|[|[|k]]]; auto.
Qed.

Lemma mod4_step n : (S (S (S (S n))) mod 4 = n mod 4)%nat.
Proof.
  change (S (S (S (S n)))) with (4 + n)%nat.
  rewrite Nat.add_comm. apply (Nat.Div0.mod_add n 1 4).
Qed.

Lemma mod3_step n : (S (S (S n)) mod 3 = n mod 3)%nat.
Proof.
  change (S (S (S n))) with (3 + n)%nat.
  rewrite Nat.add_comm. apply (Nat.Div0.mod_add n 1 3).
Qed.

(** The encoded text has a length that is a multiple of four, and without
    its padding a length that is never 1 modulo 4. *)
Lemma padded_length (bs : list N) :
  (List.length (map char_of (sextets bs) ++ padding (List.length bs)) mod 4 = 0)%nat.
Proof.
  induction bs as [|a|a b|a b c r IH] using list_ind3.
  - reflexivity.
  - reflexivity.
  - reflexivity.
  - unfold padding in *. cbn [sextets map app List.length].
    rewrite mod3_step, mod4_step. exact IH.
Qed.

Lemma unpadded_length (bs : list N) :
  (List.length (map char_of (sextets bs)) mod 4 <> 1)%nat.
Proof.
  induction bs as [|a|a b|a b c r IH] using list_ind3.
  - discriminate.
  - discriminate.
  - discriminate.
  - cbn [sextets map List.length]. rewrite mod4_step. exact IH.
Qed.

(** [atob] inverts [btoa]. *)
Lemma atob_btoa (binary : string) : atob (btoa binary) = Ret binary.
Proof.
  unfold atob, btoa.
  set (bs := map N_of_ascii (list_ascii_of_string binary)).
  assert (Hoct : Forall octet bs).
  { unfold bs, octet. apply Forall_map, Forall_forall.
    intros c _. apply N_ascii_bounded. }
  pose proof (sextets_bounded bs Hoct) as Hsx.
  assert (Hplain : Forall (fun c => is_whitespace c = false /\ is_pad c = false)
                          (map char_of (sextets bs))).
  { apply Forall_map. revert Hsx. apply Forall_impl.
    intros i Hi. apply char_of_plain, Hi. }
  assert (Hws : Forall (fun c => is_whitespace c = false)
                       (map char_of (sextets bs) ++ padding (List.length bs))).
  { apply Forall_app. split.
    - revert Hplain. apply Forall_impl. tauto.
    - destruct (padding_cases (List.length bs)) as [-> | [-> | ->]];
        repeat constructor. }
  rewrite list_ascii_of_string_of_list_ascii, (filter_plain _ Hws).
  rewrite padded_length. cbn [Nat.eqb].
  rewrite strip_padding_app;
    [| revert Hplain; apply Forall_impl; tauto | apply padding_cases].
  destruct (Nat.eqb_spec (List.length (map char_of (sextets bs)) mod 4) 1) as [E|_].
  { exfalso. exact (unpadded_length bs E). }
  rewrite (indices_char_of _ Hsx), (octets_sextets bs Hoct).
  unfold bs. rewrite map_map.
  rewrite (map_ext _ (fun c => c) (fun c => ascii_N_embedding c)), map_id.
  rewrite string_of_list_ascii_of_string. reflexivity.
Qed.

End Base64Facts.

(** ** The codec of [audioHelpers.ts] *)

Lemma decode_encode (bytes : list byte) : decode (encode bytes) = Ret bytes.
Proof.
  unfold decode, encode.
  rewrite atob_btoa. cbn [obind].
  rewrite list_ascii_of_string_of_list_ascii, map_map.
  rewrite (map_ext _ (fun b => b) byte_of_ascii_of_byte), map_id.
  reflexivity.
Qed.

Example createBlob_wrap_example :
  obind (decode (data (createBlob [1 # 2; -1 # 1; 3 # 2]%Q)))
        (fun bytes => decodeAudioData bytes 24000 1)
  = Ret {| numberOfChannels := 1; buffer_length := 3; sampleRate := 24000;
           channels := [[16384 / 32768; -32768 / 32768; -16384 / 32768]%Q] |}.
Proof. vm_compute. reflexivity. Qed.

Section PcmFacts.
Local Open Scope Z_scope.

Lemma Z_of_byte_of_Z z : Z_of_byte (byte_of_Z z) = z mod 256.
Proof.
  unfold Z_of_byte, byte_of_Z.
  pose proof (Z.mod_pos_bound z 256 ltac:(lia)) as Hb.
  set (n := Z.to_N (z mod 256)).
  assert (Hn : (n < 256)%N) by (unfold n; lia).
  assert (E : Strings.Byte.to_N (byte_of_ascii (ascii_of_N n)) = n).
  { apply Strings.Byte.to_of_N.
    rewrite <- (N_ascii_embedding n Hn) at 1.
    symmetry. apply byte_of_ascii_via_N. }
  rewrite E. unfold n. lia.
Qed.

Lemma Z_of_byte_range b : 0 <= Z_of_byte b < 256.
Proof.
  unfold Z_of_byte. pose proof (Strings.Byte.to_N_bounded b). lia.
Qed.

(** Reading the two bytes of an element gives the element back. *)
Lemma int16_of_int16_bytes n :
  -32768 <= n < 32768 ->
  match int16_bytes n with
  | [lo; hi] => int16_of_bytes lo hi = n
  | _ => False
  end.
Proof.
  intros Hn. unfold int16_bytes, int16_of_bytes. cbv zeta.
  rewrite !Z_of_byte_of_Z, Zmod_mod.
  set (u := n mod 65536).
  assert (Hu : 0 <= u < 65536) by (apply Z.mod_pos_bound; lia).
  assert (Hq : 0 <= u / 256 < 256).
  { split; [apply Z.div_pos; lia | apply Z.div_lt_upper_bound; lia]. }
  rewrite (Z.mod_small (u / 256) 256) by lia.
  assert (E : u mod 256 + 256 * (u / 256) = u).
  { rewrite (Z.div_mod u 256) at 3 by lia. lia. }
  rewrite E.
  destruct (Z.geb_spec u 32768) as [H|H].
  - assert (n < 0).
    { destruct (Z_lt_ge_dec n 0); [assumption|].
      unfold u in H. rewrite Z.mod_small in H by lia. lia. }
    unfold u. replace n with (n + 65536 - 1 * 65536) at 1 by lia.
    rewrite Zminus_mod, Z_mod_mult, Z.sub_0_r, Z.mod_mod by lia.
    rewrite Z.mod_small by lia. lia.
  - destruct (Z_lt_ge_dec n 0) as [Hneg|Hpos].
    + exfalso. unfold u in H.
      replace n with (n + 65536 - 1 * 65536) in H at 1 by lia.
      rewrite Zminus_mod, Z_mod_mult, Z.sub_0_r, Z.mod_mod in H by lia.
      rewrite Z.mod_small in H by lia. lia.
    + unfold u. apply Z.mod_small. lia.
Qed.

Lemma Int16Array_round_trip (l : list Z) :
  Forall in_int16 l -> Int16Array_of_buffer (Int16Array_buffer l) = Ret l.
Proof.
  induction 1 as [|n l Hn _ IH].
  - reflexivity.
  - pose proof (int16_of_int16_bytes n Hn) as E.
    unfold Int16Array_buffer in *. cbn [flat_map].
    destruct (int16_bytes n) as [|lo [|hi [|? ?]]]; try contradiction.
    cbn [app Int16Array_of_buffer]. rewrite IH. cbn [obind]. now rewrite E.
Qed.

(** [ToInt16] lands in the int16 range and differs from the truncation by a
    multiple of 2^16. *)
Lemma ToInt16_spec x :
  in_int16 (ToInt16 x) /\ exists k, ToInt16 x = truncate x + 65536 * k.
Proof.
  unfold ToInt16, in_int16.
  pose proof (Z.mod_pos_bound (truncate x) 65536 ltac:(lia)) as Hb.
  pose proof (Z.div_mod (truncate x) 65536 ltac:(lia)) as Hd.
  destruct (Z.geb_spec (truncate x mod 65536) 32768) as [H|H].
  - split; [lia|]. exists (- (truncate x / 65536) - 1). lia.
  - split; [lia|]. exists (- (truncate x / 65536)). lia.
Qed.

Lemma ToInt16_in_range x :
  -32768 <= truncate x < 32768 -> ToInt16 x = truncate x.
Proof.
  intros H. destruct (ToInt16_spec x) as [Hr [k Hk]]. unfold in_int16 in Hr. lia.
Qed.

End PcmFacts.

Section PcmRoundTrip.

(** The int16 elements stored by [createBlob] for in-range truncations. *)
Lemma createBlob_int16 (samples : list Q) :
  obind (decode (data (createBlob samples))) Int16Array_of_buffer
  = Ret (map (fun x => ToInt16 (x * 32768)) samples).
Proof.
  unfold createBlob. cbn [data].
  rewrite decode_encode. cbn [obind].
  apply Int16Array_round_trip, Forall_map, Forall_forall.
  intros x _. apply ToInt16_spec.
Qed.

(** Truncation moves a number toward zero by less than one. *)
Lemma truncate_spec (q : Q) :
  (0 <= q -> inject_Z (truncate q) <= q /\ q < inject_Z (truncate q) + 1)%Q /\
  (q <= 0 -> inject_Z (truncate q) - 1 < q /\ q <= inject_Z (truncate q))%Q.
Proof.
  destruct q as [n d]. unfold truncate, Qle, Qlt, inject_Z. cbn.
  pose proof (Z.quot_rem' n (Zpos d)) as E.
  split; intros H.
  - assert (Hn : (0 <= n)%Z) by lia.
    pose proof (Z.rem_bound_pos n (Zpos d) Hn ltac:(lia)) as Hr.
    revert E Hr. generalize (n ÷ Z.pos d)%Z (Z.rem n (Z.pos d)).
    intros t r E Hr. nia.
  - assert (Hn : (n <= 0)%Z) by lia.
    assert (Hr : (- Z.pos d < Z.rem n (Z.pos d) <= 0)%Z).
    { apply Z.rem_bound_pos_neg; lia. }
    revert E Hr. generalize (n ÷ Z.pos d)%Z (Z.rem n (Z.pos d)).
    intros t r E Hr. nia.
Qed.

Lemma nth_seq_map {A B} (f : A -> B) (l : list A) (d : A) :
  map (fun i => f (nth (i * 1 + 0) l d)) (seq 0 (List.length l)) = map f l.
Proof.
  apply nth_error_ext. intros i.
  rewrite !nth_error_map.
  destruct (Nat.lt_ge_cases i (List.length l)) as [Hi|Hi].
  - rewrite nth_error_seq.
    destruct (Nat.ltb_spec i (List.length l)); [|lia]. cbn.
    rewrite Nat.mul_1_r, Nat.add_0_r.
    rewrite (nth_error_nth' l d Hi). reflexivity.
  - rewrite (proj2 (nth_error_None _ _)) by (rewrite length_seq; lia).
    rewrite (proj2 (nth_error_None l i) Hi). reflexivity.
Qed.

End PcmRoundTrip.

Section PcmTolerance.

(** One sample below full scale survives the round trip within one
    quantisation step. *)
Lemma sample_round_trip (x : Q) :
  (-1 <= x)%Q -> (x < 1)%Q ->
  ToInt16 (x * 32768) = truncate (x * 32768) /\
  (Qabs (x - inject_Z (ToInt16 (x * 32768)) / 32768) <= 1 / 32768)%Q.
Proof.
  intros Hlo Hhi.
  set (q := (x * 32768)%Q).
  destruct (truncate_spec q) as [Hpos Hneg].
  assert (Hq : (-32768 <= q)%Q /\ (q < 32768)%Q) by (unfold q; split; lra).
  assert (Hnear : (inject_Z (truncate q) - 1 < q)%Q /\ (q < inject_Z (truncate q) + 1)%Q).
  { destruct (Qlt_le_dec q 0) as [Hs|Hs].
    - destruct (Hneg (Qlt_le_weak _ _ Hs)). split; lra.
    - destruct (Hpos Hs). split; lra. }
  assert (Hsame : (0 <= q -> inject_Z (truncate q) <= q)%Q /\
                  (q <= 0 -> q <= inject_Z (truncate q))%Q) by tauto.
  assert (Hrange : (-32768 <= truncate q < 32768)%Z).
  { split.
    - rewrite Zle_Qle. change (inject_Z (-32768)) with (-32768)%Q.
      destruct (Qlt_le_dec q 0) as [Hs|Hs].
      + destruct (Hneg (Qlt_le_weak _ _ Hs)). lra.
      + destruct (Hpos Hs). lra.
    - rewrite Zlt_Qlt. change (inject_Z 32768) with 32768%Q.
      destruct (Qlt_le_dec q 0) as [Hs|Hs].
      + destruct (Hneg (Qlt_le_weak _ _ Hs)). lra.
      + destruct (Hpos Hs). lra. }
  pose proof (ToInt16_in_range q Hrange) as E.
  split; [exact E|].
  rewrite E. apply Qabs_Qle_condition.
  destruct Hnear. unfold q in *.
  unfold Qdiv. change (/ 32768)%Q with (1 # 32768)%Q. split; lra.
Qed.

End PcmTolerance.

(** Decoding what [createBlob] encodes, at one channel: every sample at or
    above -1 and below 1 comes back within 1/32768.  A frame must hold a
    sample, [createBuffer] refusing a length of zero. *)
Lemma pcm_round_trip_below_full_scale (samples : list Q) :
  samples <> [] ->
  Forall (fun x => -1 <= x /\ x < 1)%Q samples ->
  exists ys,
    obind (decode (data (createBlob samples)))
          (fun bytes => decodeAudioData bytes 24000 1)
    = Ret {| numberOfChannels := 1; buffer_length := List.length samples;
             sampleRate := 24000; channels := [ys] |} /\
    Forall2 (fun x y => Qabs (x - y) <= 1 / 32768)%Q samples ys.
Proof.
  intros Hne Hrange.
  pose proof (createBlob_int16 samples) as Hint.
  destruct (decode (data (createBlob samples))) as [bytes|e]; [|discriminate].
  cbn [obind] in *.
  exists (map (fun v => inject_Z v / 32768)%Q
              (map (fun x => ToInt16 (x * 32768)) samples)).
  split.
  - unfold decodeAudioData. cbn [buffer Uint8Array_of]. rewrite Hint. cbn [obind].
    rewrite Nat.div_1_r, length_map.
    unfold createBuffer.
    assert (Hlen : (List.length samples =? 0)%nat = false).
    { destruct samples; [contradiction|reflexivity]. }
    rewrite Hlen.
    cbn [Nat.eqb Nat.ltb Nat.leb orb Z.ltb Z.compare Pos.compare Pos.compare_cont
         obind numberOfChannels buffer_length sampleRate seq map].
    do 3 f_equal.
    unfold channel_samples.
    rewrite <- (length_map (fun x => ToInt16 (x * 32768)) samples) at 1.
    apply (nth_seq_map (fun v => inject_Z v / 32768)%Q).
  - clear Hint Hne. induction Hrange as [|x l [Hlo Hhi] _ IH]; cbn [map].
    + constructor.
    + constructor; [|exact IH].
      apply (sample_round_trip x Hlo Hhi).
Qed.

(** C6: decoding the base64 encoding of any byte sequence, the empty one
    included, returns exactly the original bytes. *)
Theorem base64_round_trip :
  forall bytes : list byte, decode (encode bytes) = Ret bytes.
Proof.
  exact decode_encode.
Qed.

(** C7 at the full-scale sample: [createBlob] stores 1.0 as 32768 wrapped to
    -32768, so the sample decodes to -1 and misses the original by 2, far
    more than 1/32768. *)
Theorem pcm_round_trip_full_scale_wraps :
  exists y,
    obind (decode (data (createBlob [1%Q])))
          (fun bytes => decodeAudioData bytes 24000 1)
    = Ret {| numberOfChannels := 1; buffer_length := 1;
             sampleRate := 24000; channels := [[y]] |} /\
    (y == -1)%Q /\ ~ (Qabs (1 - y) <= 1 / 32768)%Q.
Proof.
  eexists. split; [vm_compute; reflexivity|].
  split; [reflexivity|].
  intros H. vm_compute in H. apply H. reflexivity.
Qed.

(** Dropping the fraction determines the integer. *)
Lemma truncation_of_unique (q : Q) (t t' : Z) :
  truncation_of q t -> truncation_of q t' -> t = t'.
Proof.
  intros [P N] [P' N'].
  assert (H : forall a b : Z, (inject_Z a < inject_Z b + 1)%Q -> (a <= b)%Z).
  { intros a b Hab. change 1%Q with (inject_Z 1) in Hab.
    rewrite <- inject_Z_plus in Hab.
    rewrite <- Zlt_Qlt in Hab. lia. }
  destruct (Qlt_le_dec q 0) as [Hq|Hq].
  - destruct (N (Qlt_le_weak _ _ Hq)), (N' (Qlt_le_weak _ _ Hq)).
    apply Z.le_antisymm; apply H; lra.
  - destruct (P Hq), (P' Hq).
    apply Z.le_antisymm; apply H; lra.
Qed.

(** C8: [createBlob] stores, for each sample, the sample scaled by 32768
    with its fraction dropped, reduced into the int16 range modulo 2^16 (so
    a truncation in range is kept, and one above or below the range wraps
    around instead of saturating), and the payload's MIME type is always
    [audio/pcm;rate=16000]. *)
Theorem createBlob_scales_truncates_wraps (samples : list Q) :
  mimeType (createBlob samples) = "audio/pcm;rate=16000" /\
  exists stored,
    obind (decode (data (createBlob samples))) Int16Array_of_buffer = Ret stored /\
    Forall2 (fun x v =>
               exists t,
                 truncation_of (x * 32768) t /\
                 (-32768 <= v < 32768)%Z /\
                 (exists k, v = t + 65536 * k)%Z /\
                 (-32768 <= t < 32768 -> v = t)%Z /\
                 (32768 <= t < 98304 -> v = t - 65536)%Z /\
                 (-98304 <= t < -32768 -> v = t + 65536)%Z)
            samples stored.
Proof.
  split; [reflexivity|].
  exists (map (fun x => ToInt16 (x * 32768)) samples).
  split; [apply createBlob_int16|].
  induction samples as [|x l IH]; cbn [map]; constructor; [|exact IH].
  exists (truncate (x * 32768)).
  split; [exact (truncate_spec (x * 32768))|].
  destruct (ToInt16_spec (x * 32768)) as [Hr [k Hk]]. unfold in_int16 in Hr.
  repeat split; try lia.
  exists k. exact Hk.
Qed.

(** Half a step above or below zero is stored as 0, one and a half steps
    as 1 and -1: the fraction is dropped toward zero, not rounded and not
    floored. *)
Example createBlob_truncates_toward_zero :
  obind (decode (data (createBlob [1 # 65536; -1 # 65536; 3 # 65536; -3 # 65536]%Q)))
        Int16Array_of_buffer
  = Ret [0; 0; 1; -1]%Z.
Proof. vm_compute. reflexivity. Qed.

Example createBlob_does_not_saturate :
  obind (decode (data (createBlob [3 # 2]%Q))) Int16Array_of_buffer
  = Ret [-16384]%Z.
Proof. vm_compute. reflexivity. Qed.

(** ** The callback monad *)

Section MonadFacts.
Context {A B : Type}.

Lemma run_bind (m : M A) (f : A -> M B) s :
  bind m f s = match m s with
               | (Ret a, s') => f a s'
               | (Throw e, s') => (Throw e, s')
               end.
Proof. reflexivity. Qed.

Lemma returns_ret (a : A) : returns (ret a).
Proof. intros s. exists a. reflexivity. Qed.

Lemma returns_get (f : AppState -> A) : returns (get f).
Proof. intros s. exists (f s). reflexivity. Qed.

Lemma returns_bind (m : M A) (f : A -> M B) :
  returns m -> (forall a, returns (f a)) -> returns (bind m f).
Proof.
  intros Hm Hf s. destruct (Hm s) as [a Ha].
  unfold result, bind in *. destruct (m s) as [o s']. cbn in Ha. subst o.
  apply Hf.
Qed.

Lemma returns_try_catch (m : M A) (h : JsError -> M A) :
  (forall e, returns (h e)) -> returns (try_catch m h).
Proof.
  intros Hh s. unfold result, try_catch.
  destruct (m s) as [[a|e] s'].
  - exists a. reflexivity.
  - apply Hh.
Qed.

End MonadFacts.

Lemma returns_modify f : returns (modify f).
Proof. intros s. exists tt. reflexivity. Qed.

Lemma returns_when b m : returns m -> returns (when b m).
Proof. destruct b; [auto | intros _; apply returns_ret]. Qed.

Lemma returns_forEach {A} (l : list A) (f : A -> M unit) :
  (forall x, returns (f x)) -> returns (forEach l f).
Proof.
  intros Hf. induction l as [|x l IH]; cbn [forEach].
  - apply returns_ret.
  - apply returns_bind; auto.
Qed.

Lemma returns_unit (m : M unit) s : returns m -> result m s = Ret tt.
Proof. intros H. destruct (H s) as [[] E]. exact E. Qed.

Section Preservation.
Variable R : AppState -> AppState -> Prop.
Context {R_preorder : PreOrder R}.

Lemma preserves_ret {A} (a : A) : preserves R (ret a).
Proof. intros s. reflexivity. Qed.

Lemma preserves_get {A} (f : AppState -> A) : preserves R (get f).
Proof. intros s. reflexivity. Qed.

Lemma preserves_lift {A} (o : outcome A) : preserves R (lift o).
Proof. intros s. reflexivity. Qed.

Lemma preserves_throw {A} e : preserves R (@throw A e).
Proof. intros s. reflexivity. Qed.

Lemma preserves_modify f : (forall s, R s (f s)) -> preserves R (modify f).
Proof. intros H s. apply H. Qed.

Lemma preserves_bind {A B} (m : M A) (f : A -> M B) :
  preserves R m -> (forall a, preserves R (f a)) -> preserves R (bind m f).
Proof.
  intros Hm Hf s. specialize (Hm s). unfold exec, bind in *.
  destruct (m s) as [[a|e] s']; cbn in *.
  - transitivity s'; [exact Hm | apply Hf].
  - exact Hm.
Qed.

Lemma preserves_try_catch {A} (m : M A) (h : JsError -> M A) :
  preserves R m -> (forall e, preserves R (h e)) -> preserves R (try_catch m h).
Proof.
  intros Hm Hh s. specialize (Hm s). unfold exec, try_catch in *.
  destruct (m s) as [[a|e] s']; cbn in *.
  - exact Hm.
  - transitivity s'; [exact Hm | apply Hh].
Qed.

Lemma preserves_when b m : preserves R m -> preserves R (when b m).
Proof. destruct b; [auto | intros _; apply preserves_ret]. Qed.

Lemma preserves_forEach {A} (l : list A) (f : A -> M unit) :
  (forall x, preserves R (f x)) -> preserves R (forEach l f).
Proof.
  intros Hf. induction l as [|x l IH]; cbn [forEach].
  - apply preserves_ret.
  - apply preserves_bind; auto.
Qed.

End Preservation.

(** Walks a callback's body: binds, branches and loops are split, and the
    leaves (state updates) are left to [leaf]. *)
Ltac walk leaf :=
  repeat first
    [ apply returns_bind | apply returns_ret | apply returns_get
    | apply returns_modify | apply returns_when | apply returns_forEach
    | apply returns_try_catch
    | apply preserves_bind | apply preserves_ret | apply preserves_get
    | apply preserves_lift | apply preserves_throw | apply preserves_when
    | apply preserves_forEach | apply preserves_try_catch
    | match goal with
      | |- PreOrder _ => typeclasses eauto
      | |- forall _, _ => intro
      | |- returns (match ?x with _ => _ end) => destruct x
      | |- preserves _ (match ?x with _ => _ end) => destruct x
      end
    | apply preserves_modify; intro; leaf ].

(** ** Playback: stop-all and interruption (C2) *)

#[local] Instance grows_preorder : PreOrder grows.
Proof.
  split.
  - intros s. split; [exists []; now rewrite app_nil_r | apply incl_refl].
  - intros a b c [[x Hx] Hab] [[y Hy] Hbc]. split.
    + exists (x ++ y)%list. now rewrite Hy, Hx, app_assoc.
    + eapply incl_tran; eassumption.
Qed.

#[local] Instance keeps_playback_preorder : PreOrder keeps_playback.
Proof.
  split.
  - intros s. repeat split. exists []. now rewrite app_nil_r.
  - intros a b c [[x Hx] [H1 [H2 H3]]] [[y Hy] [H4 [H5 H6]]].
    repeat split; try congruence.
    exists (x ++ y)%list. now rewrite Hy, Hx, app_assoc.
Qed.




Lemma set_trace_same s : set_trace (trace s) s = s.
Proof. destruct s. reflexivity. Qed.

(** The stop loop shared by [stopAllAudioPlayback] and the interrupted
    branch: each source is stopped, a throwing [stop()] costs a warning and
    nothing else. *)
Lemma forEach_stop label sources s :
  forEach sources (fun source =>
    try_catch (source_stop source)
      (fun e => emit (Console "warn" label))) s
  = (Ret tt, set_trace (trace s ++ stop_calls label sources) s).
Proof.
  revert s. induction sources as [|source sources IH]; intros s; cbn [forEach].
  - cbn. now rewrite app_nil_r, set_trace_same.
  - rewrite run_bind. unfold try_catch at 1, source_stop.
    rewrite run_bind. cbn [emit modify].
    destruct (stop_throws source) eqn:Hthrows; cbn [throw ret emit modify].
    + rewrite IH. cbn [stop_calls flat_map trace set_trace].
      rewrite Hthrows. unfold set_trace. cbn.
      now rewrite <- !app_assoc.
    + rewrite IH. cbn [stop_calls flat_map trace set_trace].
      rewrite Hthrows. unfold set_trace. cbn.
      now rewrite <- !app_assoc.
Qed.

Lemma stop_calls_complete label sources source :
  In source sources -> In (SourceStop (source_id source)) (stop_calls label sources).
Proof.
  intros H. unfold stop_calls. apply in_flat_map.
  exists source. split; [exact H | left; reflexivity].
Qed.









(** ** Teardown (C3, C4) *)

Lemma run_emit e s : emit e s = (Ret tt, set_trace (trace s ++ [e]) s).
Proof. reflexivity. Qed.

Lemma forEach_tracks l s :
  forEach l (fun track => emit (TrackStop track)) s
  = (Ret tt, set_trace (trace s ++ map TrackStop l) s).
Proof.
  revert s. induction l as [|track l IH]; intros s; cbn [forEach].
  - cbn. now rewrite app_nil_r, set_trace_same.
  - rewrite run_bind, run_emit, IH. unfold set_trace. cbn.
    now rewrite <- app_assoc.
Qed.

(** Computes the straight-line part of a callback: the monad's operations,
    the setters and the projections are unfolded, loops and host calls are
    left for their lemmas. *)
Ltac compute_state :=
  cbv beta iota zeta delta
    [
     bind ret get modify when on_ui on_refs
     setTextError setLiveError setIsLoadingText setIsLiveApiConnected
     setLiveApiConnecting setIsAssistantSpeaking
     setLiveInputTranscription setLiveOutputTranscription new_object
     textError liveError isLoadingText isLiveApiConnected
     liveApiConnecting liveInputTranscription liveOutputTranscription
     isAssistantSpeaking audioContextRef outputAudioContextRef
     nextStartTimeRef sourcesRef mediaStreamRef scriptProcessorRef
     sessionPromiseRef analyserRef animationFrameIdRef canvasRef ui refs
     reactions trace fresh set_textError set_liveError set_isLoadingText
     set_isLiveApiConnected set_liveApiConnecting
     set_liveInputTranscription set_liveOutputTranscription
     set_isAssistantSpeaking set_audioContextRef
     set_outputAudioContextRef set_nextStartTimeRef set_sourcesRef
     set_mediaStreamRef set_scriptProcessorRef set_sessionPromiseRef
     set_analyserRef set_animationFrameIdRef set_canvasRef set_ui
     set_refs set_reactions set_trace set_fresh context2d painted tracks
     negb andb orb N.eqb fst snd ].

Ltac run :=
  repeat first [ rewrite run_emit | rewrite forEach_tracks | rewrite forEach_stop
               | progress compute_state ].

(** Each guarded release, in closed form. *)
Lemma detach_session_run s :
  detach_session s
  = (Ret tt,
     set_refs (set_sessionPromiseRef None (refs s))
       (set_reactions
          (reactions s ++ match sessionPromiseRef (refs s) with
                          | Some p => [(p, CloseSession)]
                          | None => []
                          end) s)).
Proof.
  destruct s as [u r rx tr fr]. unfold detach_session.
  destruct r as [ac oc nx srcs ms sp [p|] an frame cv];
    run; rewrite ?app_nil_r; reflexivity.
Qed.

Lemma stop_media_stream_run s :
  stop_media_stream s
  = (Ret tt,
     set_refs (set_mediaStreamRef None (refs s))
       (set_trace
          (trace s ++ match mediaStreamRef (refs s) with
                      | Some ms => map TrackStop (tracks ms)
                      | None => []
                      end) s)).
Proof.
  destruct s as [u r rx tr fr]. unfold stop_media_stream.
  destruct r as [ac oc nx srcs [ms|] sp sess an frame cv];
    run; rewrite ?app_nil_r; reflexivity.
Qed.

Lemma disconnect_script_processor_run s :
  disconnect_script_processor s
  = (Ret tt,
     set_refs (set_scriptProcessorRef None (refs s))
       (set_trace
          (trace s ++ match scriptProcessorRef (refs s) with
                      | Some node => [NodeDisconnect node; ClearOnAudioProcess node]
                      | None => []
                      end) s)).
Proof.
  destruct s as [u r rx tr fr]. unfold disconnect_script_processor.
  destruct r as [ac oc nx srcs ms [node|] sess an frame cv];
    run; rewrite <- ?app_assoc, ?app_nil_r; reflexivity.
Qed.

Lemma disconnect_analyser_run s :
  disconnect_analyser s
  = (Ret tt,
     set_refs (set_analyserRef None (refs s))
       (set_trace
          (trace s ++ match analyserRef (refs s) with
                      | Some node => [NodeDisconnect node]
                      | None => []
                      end) s)).
Proof.
  destruct s as [u r rx tr fr]. unfold disconnect_analyser.
  destruct r as [ac oc nx srcs ms sp sess [node|] frame cv];
    run; rewrite ?app_nil_r; reflexivity.
Qed.

Lemma close_input_context_run s :
  close_input_context s
  = (Ret tt,
     set_refs (set_audioContextRef None (refs s))
       (set_trace
          (trace s ++ match audioContextRef (refs s) with
                      | Some ctx => [ContextClose ctx]
                      | None => []
                      end) s)).
Proof.
  destruct s as [u r rx tr fr]. unfold close_input_context.
  destruct r as [[ctx|] oc nx srcs ms sp sess an frame cv];
    run; rewrite ?app_nil_r; reflexivity.
Qed.

Lemma stopAllAudioPlayback_run s :
  stopAllAudioPlayback s
  = (Ret tt,
     set_ui (set_isAssistantSpeaking false (ui s))
       (set_refs (set_nextStartTimeRef 0 (set_sourcesRef [] (refs s)))
          (set_trace
             (trace s ++
              stop_calls "Could not stop audio source, it might have already ended:"
                (sourcesRef (refs s))) s))).
Proof.
  destruct s as [u r rx tr fr]. unfold stopAllAudioPlayback.
  destruct r as [ac oc nx srcs ms sp sess an frame cv].
  run. reflexivity.
Qed.

Lemma stopAudioVisualization_run s :
  stopAudioVisualization s
  = (Ret tt,
     set_refs
       (set_canvasRef
          match canvasRef (refs s) with
          | Some c => Some (if context2d c
                            then {| context2d := true; painted := false |}
                            else c)
          | None => None
          end
          (set_animationFrameIdRef
             match animationFrameIdRef (refs s) with
             | Some id => if (id =? 0)%N then Some id else None
             | None => None
             end (refs s)))
       (set_trace
          (trace s ++ match animationFrameIdRef (refs s) with
                      | Some id => if (id =? 0)%N then [] else [CancelAnimationFrame id]
                      | None => []
                      end) s)).
Proof.
  destruct s as [u r rx tr fr]. unfold stopAudioVisualization.
  destruct r as [ac oc nx srcs ms sp sess an [[|id]|] [[[] pt]|]];
    run; rewrite ?app_nil_r; reflexivity.
Qed.

(** The end state of [stopLiveConversation], in closed form. *)
Lemma stopLiveConversation_stopped s :
  stopLiveConversation s = (Ret tt, stopped s).
Proof.
  unfold stopLiveConversation, release_resources.
  rewrite run_bind, detach_session_run.
  rewrite run_bind, stop_media_stream_run.
  rewrite run_bind, disconnect_script_processor_run.
  rewrite run_bind, disconnect_analyser_run.
  rewrite run_bind, close_input_context_run.
  rewrite run_bind, stopAllAudioPlayback_run.
  rewrite run_bind, stopAudioVisualization_run.
  destruct s as [u r rx tr fr].
  destruct r as [ac oc nx srcs ms sp sess an frame cv].
  unfold stopped, stopped_refs, release_calls.
  compute_state. rewrite <- !app_assoc. reflexivity.
Qed.

Lemma run_result {A} (m : M A) s o s' : m s = (o, s') -> result m s = o.
Proof. unfold result. now intros ->. Qed.

Lemma run_exec {A} (m : M A) s o s' : m s = (o, s') -> exec m s = s'.
Proof. unfold exec. now intros ->. Qed.

Lemma stopped_idempotent s : stopped (stopped s) = stopped s.
Proof.
  destruct s as [u r rx tr fr].
  destruct u, r as [ac oc nx srcs ms sp sess an [[|id]|] [[[] pt]|]];
    unfold stopped, stopped_refs, release_calls; compute_state;
    cbn [stop_calls flat_map app]; rewrite !app_nil_r; reflexivity.
Qed.

(** C4: [stopLiveConversation] throws from no state, and a second call
    right after the first throws nothing and leaves the state exactly as the
    first call left it: no ref, flag, registered reaction or host call is
    added. *)
Theorem stopLiveConversation_idempotent (s : AppState) :
  result stopLiveConversation s = Ret tt /\
  stopLiveConversation (exec stopLiveConversation s)
  = (Ret tt, exec stopLiveConversation s).
Proof.
  rewrite (run_result _ _ _ _ (stopLiveConversation_stopped s)).
  rewrite (run_exec _ _ _ _ (stopLiveConversation_stopped s)).
  split; [reflexivity|].
  rewrite stopLiveConversation_stopped, stopped_idempotent. reflexivity.
Qed.

Lemma onaudioprocess_detached inputData s :
  sessionPromiseRef (refs s) = None ->
  onaudioprocess inputData s = (Ret tt, s).
Proof.
  intros H. unfold onaudioprocess. rewrite run_bind. cbn [get].
  rewrite H. reflexivity.
Qed.

(** C3: [stopLiveConversation] clears the session-promise ref in its first
    step, [detach_session], which makes no host call; the teardown is the
    releases run from that state; and from then on, during and after the
    teardown, an [onaudioprocess] callback throws nothing and changes
    nothing: it registers no send and calls no session. *)
Theorem post_teardown_send_is_noop (inputData : list Q) (s : AppState) :
  let detached := exec detach_session s in
  let finished := exec stopLiveConversation s in
  (sessionPromiseRef (refs detached) = None /\ trace detached = trace s) /\
  finished = exec release_resources detached /\
  onaudioprocess inputData detached = (Ret tt, detached) /\
  onaudioprocess inputData finished = (Ret tt, finished).
Proof.
  cbv zeta.
  assert (Hd : sessionPromiseRef (refs (exec detach_session s)) = None).
  { rewrite (run_exec _ _ _ _ (detach_session_run s)). reflexivity. }
  assert (Hs : sessionPromiseRef (refs (exec stopLiveConversation s)) = None).
  { rewrite (run_exec _ _ _ _ (stopLiveConversation_stopped s)). reflexivity. }
  repeat split.
  - exact Hd.
  - rewrite (run_exec _ _ _ _ (detach_session_run s)). reflexivity.
  - unfold stopLiveConversation, exec. rewrite run_bind, detach_session_run.
    reflexivity.
  - apply onaudioprocess_detached, Hd.
  - apply onaudioprocess_detached, Hs.
Qed.

Example capture_send_while_live :
  reactions (exec (onaudioprocess [1 # 2]%Q) live_state)
  = [(4%nat, SendRealtimeInput {| data := "AEA="; mimeType := "audio/pcm;rate=16000" |})].
Proof. vm_compute. reflexivity. Qed.

(** ** Error reporting (C10) *)

Lemma handleApiError_run error context s :
  is_abort error = false ->
  exists added,
    handleApiError error context s
    = (Ret tt,
       set_ui (set_liveError (Some (errorMessage error context))
                 (set_liveApiConnecting false
                    (set_textError (Some (errorMessage error context)) (ui s))))
         (set_trace (trace s ++ Console "error" ("Error in " ++ context ++ ":")
                                  :: added) s)) /\
    Forall quiet_call added.
Proof.
  intros Habort. unfold handleApiError.
  rewrite run_bind, run_emit, Habort.
  destruct s as [u r rx tr fr].
  destruct (includes (errorMessage error context) "Requested entity was not found.").
  - eexists. split.
    + run. rewrite <- !app_assoc. reflexivity.
    + repeat constructor.
  - exists []. split.
    + run. reflexivity.
    + constructor.
Qed.

(** C10: for every error value that is not a [DOMException] named
    [AbortError], and whatever context (text generation, text-to-speech, live
    connection, live decoding) reports it, [handleApiError] sets the text
    error and the live error to the same message and clears the live
    connecting flag. *)
Theorem handleApiError_sets_both_errors
    (error : JsError) (context : string) (s : AppState) :
  is_abort error = false ->
  let s' := exec (handleApiError error context) s in
  result (handleApiError error context) s = Ret tt /\
  textError (ui s') = Some (errorMessage error context) /\
  liveError (ui s') = Some (errorMessage error context) /\
  liveApiConnecting (ui s') = false.
Proof.
  intros Habort.
  destruct (handleApiError_run error context s Habort) as [added [E _]].
  cbv zeta.
  rewrite (run_result _ _ _ _ E), (run_exec _ _ _ _ E).
  repeat split.
Qed.

(** A failure of the text-to-speech path, reported from a live
    conversation's state. *)
Lemma handleApiError_sets_both_errors_witness :
  is_abort (ErrorObj "Error" "No audio data received for TTS.") = false /\
  let s' := exec (handleApiError (ErrorObj "Error" "No audio data received for TTS.")
                                 "text-to-speech") live_state in
  result (handleApiError (ErrorObj "Error" "No audio data received for TTS.")
                         "text-to-speech") live_state = Ret tt /\
  textError (ui s') = Some "No audio data received for TTS." /\
  liveError (ui s') = Some "No audio data received for TTS." /\
  liveApiConnecting (ui s') = false.
Proof.
  split; [reflexivity|].
  apply (handleApiError_sets_both_errors
           (ErrorObj "Error" "No audio data received for TTS.")
           "text-to-speech" live_state).
  reflexivity.
Defined.

Example handleApiError_abort :
  let s' := exec (handleApiError (DOMException "AbortError" "aborted") "text generation")
                 live_state in
  textError (ui s') = None /\ liveError (ui s') = None.
Proof. vm_compute. split; reflexivity. Qed.

(** ** The close callback (C5) *)

Lemma prefix_app k b : prefix k (k ++ b) = true.
Proof.
  induction k as [|c k IH]; cbn.
  - destruct b; reflexivity.
  - destruct (ascii_dec c c) as [_|N]; [exact IH | now elim N].
Qed.

Lemma includes_app a k b : includes (a ++ k ++ b) k = true.
Proof.
  induction a as [|c a IH].
  - cbn [append]. destruct (k ++ b) eqn:E; cbn [includes];
      rewrite <- E, prefix_app; reflexivity.
  - cbn [append includes]. rewrite IH. apply orb_true_r.
Qed.

(** What [onclose] does on a close code other than 1000: the live error
    names the code, the flags and transcriptions are reset, no ref is
    touched and the only host call is the debug log. *)
Lemma onclose_abnormal code reason s :
  code <> 1000%N ->
  exists message,
    liveError (ui (exec (onclose code reason) s)) = Some message /\
    includes message (string_of_N code) = true /\
    refs (exec (onclose code reason) s) = refs s /\
    reactions (exec (onclose code reason) s) = reactions s /\
    trace (exec (onclose code reason) s)
    = (trace s ++ [Console "debug" "Live API session closed"])%list.
Proof.
  intros Hcode. unfold onclose, exec.
  rewrite run_bind, run_emit.
  destruct (N.eqb_spec code 1000) as [|_]; [contradiction|].
  destruct s as [u r rx tr fr]. run.
  eexists. split; [reflexivity|]. split; [|repeat split].
  apply (includes_app "Live API closed unexpectedly: Code ").
Qed.

(** C5 on the conversation in progress: [onclose] with code 1006 sets an
    error that names the code, but the microphone stream, the script
    processor, the input context and the playing sources all stay in their
    refs and none of them is released; [onerror], from the same state,
    releases each of them once. *)
Theorem onclose_abnormal_releases_nothing :
  let closed := exec (onclose 1006 "") live_state in
  let failed := exec (onerror (Some "socket failure")) live_state in
  liveError (ui closed) = Some "Live API closed unexpectedly: Code 1006, Reason: " /\
  refs closed = refs live_state /\
  trace closed = [Console "debug" "Live API session closed"] /\
  filter is_release (trace failed)
  = [TrackStop 2; NodeDisconnect 6; ClearOnAudioProcess 6; NodeDisconnect 5;
     ContextClose 3; SourceStop 7; SourceStop 8] /\
  mediaStreamRef (refs failed) = None /\
  scriptProcessorRef (refs failed) = None /\
  audioContextRef (refs failed) = None /\
  sourcesRef (refs failed) = [].
Proof.
  vm_compute. repeat split.
Qed.

(** ** Scheduling (C1) *)

#[local] Instance keeps_schedule_preorder : PreOrder keeps_schedule.
Proof.
  split.
  - intros s. split; reflexivity.
  - intros a b c [H1 H2] [H3 H4]. split; congruence.
Qed.

Lemma scheduled_app a b : scheduled (a ++ b) = (scheduled a ++ scheduled b)%list.
Proof. apply flat_map_app. Qed.

Ltac keeps_schedule_leaf :=
  split; cbn; rewrite ?scheduled_app; cbn; rewrite ?app_nil_r; reflexivity.

Lemma exec_bind {A B} (m : M A) (f : A -> M B) s a :
  result m s = Ret a -> exec (bind m f) s = exec (f a) (exec m s).
Proof.
  unfold result, exec, bind. destruct (m s) as [o s1]. cbn. now intros ->.
Qed.

Lemma result_bind {A B} (m : M A) (f : A -> M B) s a :
  result m s = Ret a -> result (bind m f) s = result (f a) (exec m s).
Proof.
  unfold result, exec, bind. destruct (m s) as [o s1]. cbn. now intros ->.
Qed.

Lemma onmessage_returns message currentTime throws :
  returns (onmessage message currentTime throws).
Proof. unfold onmessage. walk idtac. Qed.

Lemma getOutputAudioContext_keeps_schedule :
  returns getOutputAudioContext /\ preserves keeps_schedule getOutputAudioContext.
Proof. split; unfold getOutputAudioContext; walk keeps_schedule_leaf. Qed.

Lemma try_lift_throw {A B} e (f : A -> M B) h s :
  try_catch (bind (lift (Throw e)) f) h s
  = (fst (h e s), exec (h e) s).
Proof. unfold try_catch, bind, lift, exec. now destruct (h e s). Qed.

Lemma set_next_start_run f s :
  on_refs (fun r => set_nextStartTimeRef (f r) r) s
  = (Ret tt, set_refs (set_nextStartTimeRef (f (refs s)) (refs s)) s).
Proof. reflexivity. Qed.

(** The audio branch of [onmessage], once the payload has decoded: the
    source starts at the cursor moved up to the clock, and the cursor
    advances by the buffer's duration. *)
Lemma schedule_decoded base64 audioBuffer s0 throws :
  obind (decode base64) (fun bytes => decodeAudioData bytes 24000 1) = Ret audioBuffer ->
  let s1 := exec (try_catch
    (audioBuffer <- lift (obind (decode base64)
                                (fun bytes => decodeAudioData bytes 24000 1)) ;;
     id <- new_object ;;
     let source := {| source_id := id; source_buffer := audioBuffer;
                      stop_throws := throws |} in
     emit (SourceConnect id) ;;
     start <- get (fun s => nextStartTimeRef (refs s)) ;;
     emit (SourceStart source start) ;;
     on_refs (fun r => set_nextStartTimeRef
                         (Double.add (nextStartTimeRef r) (duration audioBuffer)) r) ;;
     on_refs (fun r => set_sourcesRef (sourcesRef r ++ [source]) r) ;;
     setIsAssistantSpeaking true)
    (fun decodeError =>
       handleApiError decodeError "Live API audio decoding" ;;
       setIsAssistantSpeaking false)) s0 in
  scheduled (trace s1)
  = (scheduled (trace s0)
       ++ [(nextStartTimeRef (refs s0), duration audioBuffer)])%list /\
  nextStartTimeRef (refs s1)
  = Double.add (nextStartTimeRef (refs s0)) (duration audioBuffer).
Proof.
  intros Hdecode. cbv zeta. unfold exec, try_catch.
  rewrite run_bind. unfold lift at 1. rewrite Hdecode.
  destruct s0 as [u r rx tr fr]. run.
  rewrite !scheduled_app. cbn. rewrite !app_nil_r. split; reflexivity.
Qed.

Lemma decode_failure_keeps_schedule decodeError :
  preserves keeps_schedule
    (handleApiError decodeError "Live API audio decoding" ;;
     setIsAssistantSpeaking false).
Proof. unfold handleApiError. walk keeps_schedule_leaf. Qed.

Lemma schedule_chunk_plan base64 currentTime throws s :
  let s' := exec (schedule_chunk base64 currentTime throws) s in
  let start := Qmax (nextStartTimeRef (refs s)) currentTime in
  match chunk_duration base64 with
  | Some d =>
      scheduled (trace s') = (scheduled (trace s) ++ [(start, d)])%list /\
      nextStartTimeRef (refs s') = Double.add start d
  | None =>
      scheduled (trace s') = scheduled (trace s) /\
      nextStartTimeRef (refs s') = start
  end.
Proof.
  cbv zeta. unfold schedule_chunk.
  destruct getOutputAudioContext_keeps_schedule as [Hret Hkeep].
  destruct (Hret s) as [ctx Hctx]. destruct (Hkeep s) as [Htrace Hnext].
  rewrite (exec_bind _ _ _ _ Hctx).
  set (s0 := exec getOutputAudioContext s) in *.
  rewrite (exec_bind _ _ _ tt) by reflexivity.
  rewrite (run_exec _ _ _ _ (set_next_start_run _ s0)).
  set (s1 := set_refs _ s0).
  assert (Hs1 : scheduled (trace s1) = scheduled (trace s) /\
                nextStartTimeRef (refs s1)
                = Qmax (nextStartTimeRef (refs s)) currentTime).
  { unfold s1. cbn. rewrite Hnext. split; [exact Htrace | reflexivity]. }
  destruct Hs1 as [Hs1 Hn1]. unfold chunk_duration.
  destruct (obind (decode base64) (fun bytes => decodeAudioData bytes 24000 1))
    as [audioBuffer|decodeError] eqn:Hdecode.
  - pose proof (schedule_decoded base64 audioBuffer s1 throws Hdecode) as H.
    cbv zeta in H. rewrite Hdecode in H. destruct H as [E1 E2].
    rewrite E1, E2, Hs1, Hn1. split; reflexivity.
  - rewrite (run_exec _ _ _ _ (try_lift_throw _ _ _ s1)).
    destruct (decode_failure_keeps_schedule decodeError s1) as [E1 E2].
    rewrite E1, E2, Hs1, Hn1. split; reflexivity.
Qed.

Lemma exec_seq (m k : M unit) s :
  returns m -> exec (m ;; k) s = exec k (exec m s).
Proof. intros H. apply (exec_bind m (fun _ => k) s tt), returns_unit, H. Qed.

Ltac keeps_schedule_step :=
  match goal with
  | |- keeps_schedule ?a (exec ?m ?a) =>
      generalize a; change (preserves keeps_schedule m);
      walk keeps_schedule_leaf
  end.

(** One quiet arrival moves the schedule and the cursor as the plan says. *)
Lemma onmessage_plan a s :
  quiet a ->
  let s' := exec (onmessage (arrival_message a) (arrival_clock a)
                            (arrival_stop_throws a)) s in
  scheduled (trace s')
  = (scheduled (trace s) ++ fst (plan (nextStartTimeRef (refs s)) [a]))%list /\
  nextStartTimeRef (refs s') = snd (plan (nextStartTimeRef (refs s)) [a]).
Proof.
  destruct a as [message clock throws]. intros [Hint Hcalm]. cbn in Hint, Hcalm.
  cbv zeta. cbn [arrival_message arrival_clock arrival_stop_throws plan].
  unfold onmessage. rewrite Hcalm, Hint.
  rewrite exec_seq by walk idtac.
  set (s1 := exec (emit _) s).
  assert (H1 : keeps_schedule s s1) by (unfold s1; keeps_schedule_leaf).
  rewrite exec_seq by walk idtac.
  set (s2 := exec _ s1).
  assert (H2 : keeps_schedule s1 s2).
  { unfold s2. keeps_schedule_step. }
  rewrite exec_seq by walk idtac.
  set (s3 := exec _ s2).
  assert (H3 : keeps_schedule s2 s3).
  { unfold s3. keeps_schedule_step. }
  rewrite exec_seq by walk idtac.
  set (s4 := exec _ s3).
  assert (H4 : keeps_schedule s3 s4).
  { unfold s4. keeps_schedule_step. }
  assert (H : keeps_schedule s s4).
  { transitivity s1; [exact H1|]. transitivity s2; [exact H2|].
    transitivity s3; [exact H3 | exact H4]. }
  destruct H as [Htrace Hnext]. clearbody s4. clear H1 H2 H3 H4 s1 s2 s3.
  rewrite <- Htrace, <- Hnext.
  destruct (truthy (inlineData message)) as [base64|].
  - rewrite exec_seq by (unfold schedule_chunk; walk idtac).
    cbn [when]. change (exec (ret tt) ?x) with x.
    pose proof (schedule_chunk_plan base64 clock throws s4) as Hplan.
    cbv zeta in Hplan.
    destruct (chunk_duration base64) as [d|]; destruct Hplan as [E1 E2];
      rewrite E1, E2; cbn; rewrite ?app_nil_r; split; reflexivity.
  - cbn. rewrite app_nil_r. split; reflexivity.
Qed.
















(** In the nominal turn the second chunk starts where the first one ends,
    at the double next above 0.15. *)
Example nominal_turn_schedule :
  scheduled (trace (exec (deliver nominal_turn) initial_state))
  = [(Double.round (10 # 100), Double.round (5 # 100));
     (Double.add (Double.round (10 # 100)) (Double.round (5 # 100)),
      Double.round (3 # 100))] /\
  (15 # 100 < Double.add (Double.round (10 # 100)) (Double.round (5 # 100)))%Q.
Proof.
  split; [vm_compute; reflexivity | unfold Qlt; vm_compute; reflexivity].
Qed.


(** ** A chunk that fails to decode (C9) *)

Lemma session_intact_refl s : session_intact s s.
Proof. repeat split. Qed.

Lemma session_intact_trans a b c :
  session_intact a b -> session_intact b c -> session_intact a c.
Proof.
  unfold session_intact. intros H1 H2.
  decompose [and] H1. decompose [and] H2. repeat split; congruence.
Qed.

#[local] Instance undisturbed_preorder : PreOrder undisturbed.
Proof.
  split.
  - intros s. split; [apply session_intact_refl|]. split; [reflexivity|].
    exists []. split; [now rewrite app_nil_r | constructor].
  - intros a b c [H1 [E1 [x [Hx Fx]]]] [H2 [E2 [y [Hy Fy]]]].
    split; [eapply session_intact_trans; eassumption|].
    split; [congruence|].
    exists (x ++ y)%list. split.
    + now rewrite Hy, Hx, app_assoc.
    + apply Forall_app. split; assumption.
Qed.

Ltac undisturbed_leaf :=
  split; [repeat split | split; [reflexivity|]];
  cbn;
  first [ exists []; split; [now rewrite app_nil_r | constructor]
        | eexists; split; [reflexivity | repeat constructor] ].

(** Relates a state to the one a straight-line piece of a callback leaves. *)
Ltac relate R leaf :=
  match goal with
  | |- R ?a (exec ?m ?a) => generalize a; change (preserves R m); walk leaf
  end.

Lemma Int16Array_of_buffer_error bs e :
  Int16Array_of_buffer bs = Throw e -> e = range_error.
Proof.
  revert e.
  enough (H : (forall e, Int16Array_of_buffer bs = Throw e -> e = range_error) /\
              (forall b e, Int16Array_of_buffer (b :: bs) = Throw e -> e = range_error))
    by apply H.
  induction bs as [|x bs [IH1 IH2]].
  - split; cbn; intros; congruence.
  - split; [apply IH2|].
    intros b e. cbn [Int16Array_of_buffer].
    destruct (Int16Array_of_buffer bs) as [l|e'] eqn:E; cbn [obind].
    + discriminate.
    + intros H. injection H as <-. apply IH1. reflexivity.
Qed.

(** A payload fails to decode in one of three ways, none of them an
    abort. *)
Lemma decode_error_kind base64 e :
  obind (decode base64) (fun bytes => decodeAudioData bytes 24000 1) = Throw e ->
  e = Base64.invalid_character \/ e = range_error \/ e = not_supported_error.
Proof.
  unfold decode, Base64.atob.
  destruct (_ =? 1)%nat; cbn [obind].
  { intros H. injection H as <-. auto. }
  destruct (Base64.indices _); cbn [obind].
  2: { intros H. injection H as <-. auto. }
  unfold decodeAudioData. cbn [buffer Uint8Array_of].
  destruct (Int16Array_of_buffer _) as [dataInt16|e'] eqn:E; cbn [obind].
  2: { intros H. injection H as <-. right. left.
       eapply Int16Array_of_buffer_error, E. }
  unfold createBuffer. destruct (_ || _ || _ || _ || _); cbn [obind].
  - intros H. injection H as <-. auto.
  - discriminate.
Qed.

Lemma decode_error_not_abort base64 e :
  obind (decode base64) (fun bytes => decodeAudioData bytes 24000 1) = Throw e ->
  is_abort e = false.
Proof.
  intros H. destruct (decode_error_kind _ _ H) as [-> | [-> | ->]]; reflexivity.
Qed.

(** The audio branch of [onmessage] on a payload that fails to decode. *)
Lemma schedule_chunk_failure base64 currentTime throws decodeError s :
  obind (decode base64) (fun bytes => decodeAudioData bytes 24000 1)
  = Throw decodeError ->
  let s' := exec (schedule_chunk base64 currentTime throws) s in
  session_intact s s' /\
  liveError (ui s') = Some (errorMessage decodeError "Live API audio decoding") /\
  exists before after,
    trace s' = (trace s ++ before
                  ++ Console "error" "Error in Live API audio decoding:" :: after)%list /\
    Forall quiet_call (before ++ after).
Proof.
  intros Hdecode. cbv zeta. unfold schedule_chunk.
  assert (Hret : returns getOutputAudioContext)
    by (unfold getOutputAudioContext; walk idtac).
  destruct (Hret s) as [ctx Hctx].
  rewrite (exec_bind _ _ _ _ Hctx).
  assert (H0 : undisturbed s (exec getOutputAudioContext s))
    by (unfold getOutputAudioContext; relate undisturbed undisturbed_leaf).
  set (s0 := exec getOutputAudioContext s) in *.
  rewrite (exec_bind _ _ _ tt) by reflexivity.
  rewrite (run_exec _ _ _ _ (set_next_start_run _ s0)).
  set (s1 := set_refs _ s0).
  assert (H1 : undisturbed s0 s1) by (unfold s1; undisturbed_leaf).
  rewrite Hdecode, (run_exec _ _ _ _ (try_lift_throw _ _ _ s1)).
  destruct (handleApiError_run decodeError "Live API audio decoding" s1
              (decode_error_not_abort _ _ Hdecode)) as [added [Hrun Hadded]].
  rewrite (exec_bind _ _ _ tt) by (rewrite (run_result _ _ _ _ Hrun); reflexivity).
  rewrite (run_exec _ _ _ _ Hrun).
  assert (H : undisturbed s s1) by (transitivity s0; assumption).
  destruct H as [Hintact [_ [before [Hbefore Fbefore]]]].
  clearbody s1. clear H0 H1 Hrun.
  destruct s1 as [u r rx tr fr]. cbn in *.
  split; [exact Hintact|]. split; [reflexivity|].
  exists before, added. split.
  - rewrite Hbefore, <- app_assoc. reflexivity.
  - apply Forall_app. split; assumption.
Qed.

#[local] Instance playback_intact_preorder : PreOrder playback_intact.
Proof.
  split.
  - intros s. split; [reflexivity|].
    exists []. split; [now rewrite app_nil_r | constructor].
  - intros a b c [E1 [x [Hx Fx]]] [E2 [y [Hy Fy]]].
    split; [congruence|].
    exists (x ++ y)%list. split.
    + now rewrite Hy, Hx, app_assoc.
    + apply Forall_app. split; assumption.
Qed.

Ltac playback_intact_leaf :=
  split; [reflexivity|]; cbn;
  first [ exists []; split; [now rewrite app_nil_r | constructor]
        | eexists; split; [reflexivity | repeat constructor] ].

(** The audio branch of [onmessage] on a payload that fails to decode
    touches no playback source. *)
Lemma schedule_chunk_failure_playback base64 currentTime throws decodeError s :
  obind (decode base64) (fun bytes => decodeAudioData bytes 24000 1)
  = Throw decodeError ->
  playback_intact s (exec (schedule_chunk base64 currentTime throws) s).
Proof.
  intros Hdecode. unfold schedule_chunk.
  assert (Hret : returns getOutputAudioContext)
    by (unfold getOutputAudioContext; walk idtac).
  destruct (Hret s) as [ctx Hctx].
  rewrite (exec_bind _ _ _ _ Hctx).
  assert (H0 : playback_intact s (exec getOutputAudioContext s))
    by (unfold getOutputAudioContext; relate playback_intact playback_intact_leaf).
  set (s0 := exec getOutputAudioContext s) in *.
  rewrite (exec_bind _ _ _ tt) by reflexivity.
  rewrite (run_exec _ _ _ _ (set_next_start_run _ s0)).
  set (s1 := set_refs _ s0).
  assert (H1 : playback_intact s0 s1) by (unfold s1; playback_intact_leaf).
  rewrite Hdecode, (run_exec _ _ _ _ (try_lift_throw _ _ _ s1)).
  assert (H2 : playback_intact s1
                 (exec (handleApiError decodeError "Live API audio decoding" ;;
                        setIsAssistantSpeaking false) s1))
    by (unfold handleApiError; relate playback_intact playback_intact_leaf).
  transitivity s0; [exact H0|]. transitivity s1; [exact H1 | exact H2].
Qed.

(** It lowers the speaking flag, whatever is still playing. *)
Lemma schedule_chunk_failure_flag base64 currentTime throws decodeError s :
  obind (decode base64) (fun bytes => decodeAudioData bytes 24000 1)
  = Throw decodeError ->
  isAssistantSpeaking (ui (exec (schedule_chunk base64 currentTime throws) s)) = false.
Proof.
  intros Hdecode. unfold schedule_chunk.
  assert (Hret : returns getOutputAudioContext)
    by (unfold getOutputAudioContext; walk idtac).
  destruct (Hret s) as [ctx Hctx].
  rewrite (exec_bind _ _ _ _ Hctx).
  set (s0 := exec getOutputAudioContext s).
  rewrite (exec_bind _ _ _ tt) by reflexivity.
  rewrite (run_exec _ _ _ _ (set_next_start_run _ s0)).
  set (s1 := set_refs _ s0).
  rewrite Hdecode, (run_exec _ _ _ _ (try_lift_throw _ _ _ s1)).
  destruct (handleApiError_run decodeError "Live API audio decoding" s1
              (decode_error_not_abort _ _ Hdecode)) as [added [Hrun _]].
  rewrite (exec_bind _ _ _ tt) by (rewrite (run_result _ _ _ _ Hrun); reflexivity).
  rewrite (run_exec _ _ _ _ Hrun). reflexivity.
Qed.

Lemma decode_error_message base64 e :
  obind (decode base64) (fun bytes => decodeAudioData bytes 24000 1) = Throw e ->
  exists message,
    thrown_with e message /\ errorMessage e "Live API audio decoding" = message.
Proof.
  intros H. destruct (decode_error_kind _ _ H) as [-> | [-> | ->]];
    eexists; (split; [eexists; first [left; reflexivity | right; reflexivity]
                     | reflexivity]).
Qed.

(** C9: when the audio payload of a message fails to decode, [onmessage]
    lets no exception escape, logs the failure with [console.error], sets
    the live error to the message of the error thrown, and tears nothing
    down: the session-promise ref, the microphone stream, the script
    processor, the analyser and the input context stay in their refs, the
    connected flag is unchanged, no reaction is registered on the session,
    no teardown call is made and no source is started for the chunk.
    Unless the message is also an interruption, playback is left as it is:
    the same sources are active, none is stopped, and the cursor has only
    moved up to the clock, so only this chunk's audio is lost; the speaking
    flag is lowered all the same. *)
Theorem decode_failure_is_not_fatal
    (message : LiveServerMessage) (currentTime : Q) (throws : bool)
    (base64 : string) (decodeError : JsError) (s : AppState) :
  alarming message = false ->
  truthy (inlineData message) = Some base64 ->
  obind (decode base64) (fun bytes => decodeAudioData bytes 24000 1)
  = Throw decodeError ->
  let s' := exec (onmessage message currentTime throws) s in
  result (onmessage message currentTime throws) s = Ret tt /\
  session_intact s s' /\
  (exists text, thrown_with decodeError text /\ liveError (ui s') = Some text) /\
  (exists before after,
     trace s' = (trace s ++ before
                   ++ Console "error" "Error in Live API audio decoding:" :: after)%list /\
     Forall quiet_call (before ++ after)) /\
  (interrupted message = false ->
   playback_intact s s' /\
   scheduled (trace s') = scheduled (trace s) /\
   nextStartTimeRef (refs s') = Qmax (nextStartTimeRef (refs s)) currentTime /\
   isAssistantSpeaking (ui s') = false).
Proof.
  intros Hcalm Hdata Hdecode. cbv zeta.
  split; [apply returns_unit, onmessage_returns|].
  assert (Hplayback : interrupted message = false ->
            playback_intact s (exec (onmessage message currentTime throws) s) /\
            scheduled (trace (exec (onmessage message currentTime throws) s))
            = scheduled (trace s) /\
            nextStartTimeRef (refs (exec (onmessage message currentTime throws) s))
            = Qmax (nextStartTimeRef (refs s)) currentTime /\
            isAssistantSpeaking (ui (exec (onmessage message currentTime throws) s))
            = false).
  { intros Hint.
    pose proof (onmessage_plan
                  {| arrival_message := message; arrival_clock := currentTime;
                     arrival_stop_throws := throws |} s (conj Hint Hcalm)) as Hplan.
    cbv zeta in Hplan.
    cbn [arrival_message arrival_clock arrival_stop_throws plan] in Hplan.
    rewrite Hdata in Hplan. cbv zeta in Hplan.
    unfold chunk_duration in Hplan. rewrite Hdecode in Hplan.
    cbn [plan fst snd] in Hplan. rewrite app_nil_r in Hplan.
    destruct Hplan as [Hsched Hcursor].
    split; [|split; [exact Hsched | split; [exact Hcursor|]]].
    - unfold onmessage. rewrite Hcalm, Hdata, Hint.
      rewrite exec_seq by walk idtac.
      set (s1 := exec (emit _) s).
      assert (H1 : playback_intact s s1) by (unfold s1; playback_intact_leaf).
      rewrite exec_seq by walk idtac.
      set (s2 := exec _ s1).
      assert (H2 : playback_intact s1 s2)
        by (unfold s2; relate playback_intact playback_intact_leaf).
      rewrite exec_seq by walk idtac.
      set (s3 := exec _ s2).
      assert (H3 : playback_intact s2 s3)
        by (unfold s3; relate playback_intact playback_intact_leaf).
      rewrite exec_seq by walk idtac.
      set (s4 := exec _ s3).
      assert (H4 : playback_intact s3 s4)
        by (unfold s4; relate playback_intact playback_intact_leaf).
      rewrite exec_seq by (unfold schedule_chunk; walk idtac).
      cbn [when]. change (exec (ret tt) ?x) with x.
      pose proof (schedule_chunk_failure_playback base64 currentTime throws
                    decodeError s4 Hdecode) as H5.
      transitivity s1; [exact H1|]. transitivity s2; [exact H2|].
      transitivity s3; [exact H3|]. transitivity s4; [exact H4 | exact H5].
    - unfold onmessage. rewrite Hcalm, Hdata, Hint.
      do 4 rewrite exec_seq by walk idtac.
      rewrite exec_seq by (unfold schedule_chunk; walk idtac).
      cbn [when]. change (exec (ret tt) ?x) with x.
      apply (schedule_chunk_failure_flag _ _ _ _ _ Hdecode). }
  split; [|split; [|split; [|exact Hplayback]]]; clear Hplayback.
  all: unfold onmessage; rewrite Hcalm, Hdata.
  all: rewrite exec_seq by walk idtac.
  all: set (s1 := exec (emit _) s).
  all: assert (H1 : undisturbed s s1) by (unfold s1; undisturbed_leaf).
  all: rewrite exec_seq by walk idtac.
  all: set (s2 := exec _ s1).
  all: assert (H2 : undisturbed s1 s2) by (unfold s2; relate undisturbed undisturbed_leaf).
  all: rewrite exec_seq by walk idtac.
  all: set (s3 := exec _ s2).
  all: assert (H3 : undisturbed s2 s3) by (unfold s3; relate undisturbed undisturbed_leaf).
  all: rewrite exec_seq by walk idtac.
  all: set (s4 := exec _ s3).
  all: assert (H4 : undisturbed s3 s4) by (unfold s4; relate undisturbed undisturbed_leaf).
  all: assert (Hpre : undisturbed s s4)
    by (transitivity s1; [exact H1|]; transitivity s2; [exact H2|];
        transitivity s3; [exact H3 | exact H4]).
  all: clearbody s4; clear H1 H2 H3 H4 s1 s2 s3.
  all: rewrite exec_seq by (unfold schedule_chunk; walk idtac).
  all: pose proof (schedule_chunk_failure base64 currentTime throws decodeError s4 Hdecode)
    as Hchunk; cbv zeta in Hchunk.
  all: set (s5 := exec (schedule_chunk base64 currentTime throws) s4) in *.
  all: set (s6 := exec _ s5).
  all: assert (Hpost : undisturbed s5 s6)
    by (unfold s6; relate undisturbed undisturbed_leaf).
  all: clearbody s5 s6.
  all: destruct Hpre as [I1 [_ [x [Hx Fx]]]].
  all: destruct Hchunk as [I2 [Herror [before [after [Htrace Fchunk]]]]].
  all: destruct Hpost as [I3 [E3 [z [Hz Fz]]]].
  - eapply session_intact_trans; [|exact I3].
    eapply session_intact_trans; eassumption.
  - destruct (decode_error_message _ _ Hdecode) as [text [Hthrown Htext]].
    exists text. split; [exact Hthrown | congruence].
  - exists (x ++ before)%list, (after ++ z)%list. split.
    + rewrite Hz, Htrace, Hx, <- !app_assoc. cbn [app]. reflexivity.
    + apply Forall_app in Fchunk. destruct Fchunk.
      repeat (apply Forall_app; split); assumption.
Qed.

(** A truncated payload arrives during the conversation in progress. *)
Lemma decode_failure_is_not_fatal_witness :
  (alarming truncated_chunk = false /\
   truthy (inlineData truncated_chunk) = Some "AAAA" /\
   obind (decode "AAAA") (fun bytes => decodeAudioData bytes 24000 1)
   = Throw range_error) /\
  let s' := exec (onmessage truncated_chunk (13 # 64) false) live_state in
  result (onmessage truncated_chunk (13 # 64) false) live_state = Ret tt /\
  session_intact live_state s' /\
  (exists text, thrown_with range_error text /\ liveError (ui s') = Some text) /\
  (exists before after,
     trace s' = (trace live_state ++ before
                   ++ Console "error" "Error in Live API audio decoding:" :: after)%list /\
     Forall quiet_call (before ++ after)) /\
  (interrupted truncated_chunk = false ->
   playback_intact live_state s' /\
   scheduled (trace s') = scheduled (trace live_state) /\
   nextStartTimeRef (refs s') = Qmax (nextStartTimeRef (refs live_state)) (13 # 64) /\
   isAssistantSpeaking (ui s') = false).
Proof.
  split; [repeat split|].
  apply (decode_failure_is_not_fatal truncated_chunk (13 # 64) false "AAAA"
           range_error live_state); reflexivity.
Defined.

(** The truncated payload costs the conversation in progress nothing but
    itself: the two chunks playing stay in the active set, though the
    speaking flag is lowered, and the only calls are the two console
    lines. *)
Example truncated_chunk_is_dropped :
  let s' := exec (onmessage truncated_chunk (13 # 64) false) live_state in
  sourcesRef (refs s') = sourcesRef (refs live_state) /\
  isAssistantSpeaking (ui s') = false /\
  liveError (ui s')
  = Some "byte length of Int16Array should be a multiple of 2" /\
  trace s' = [Console "log" "Live API message:";
              Console "error" "Error in Live API audio decoding:"].
Proof. vm_compute. repeat split. Qed.


Example interruption_trace :
  trace (exec (onmessage interruption (1 # 8) false) live_state)
  = [Console "log" "Live API message:"; SourceStop 7; SourceStop 8;
     Console "warn"
       "Could not stop audio source on interruption, it might have already ended:"].
Proof. vm_compute. reflexivity. Qed.

(** ** Promise reactions *)

(** A reaction never throws into the event loop: a rejected promise and a
    throwing session method both end in the [.catch] handler. *)
Lemma run_reaction_returns settled method_throws r :
  returns (run_reaction settled method_throws r).
Proof. unfold run_reaction. walk idtac. Qed.

Example source_ended_last :
  let s := exec (source_ended (audio_message "") 8)
             (exec (source_ended (audio_message "") 7) live_state) in
  sourcesRef (refs s) = [] /\ isAssistantSpeaking (ui s) = false.
Proof. vm_compute. split; reflexivity. Qed.

(** * Further properties *)

(** ** The PCM codec *)

Section PcmDecoding.
Local Open Scope Z_scope.

Lemma list_ind2 {A} (P : list A -> Prop) :
  P [] -> (forall a, P [a]) -> (forall a b r, P r -> P (a :: b :: r)) ->
  forall l, P l.
Proof.
  intros H0 H1 H2 l.
  enough (P l /\ forall a, P (a :: l)) by tauto.
  induction l as [|x l [IH0 IH1]]; auto.
Qed.

Lemma byte_of_Z_of_byte b : byte_of_Z (Z_of_byte b) = b.
Proof.
  unfold byte_of_Z. pose proof (Z_of_byte_range b) as Hb.
  rewrite Z.mod_small by lia. unfold Z_of_byte. rewrite N2Z.id.
  rewrite <- ascii_of_byte_via_N. apply byte_of_ascii_of_byte.
Qed.

Lemma int16_of_bytes_range lo hi : in_int16 (int16_of_bytes lo hi).
Proof.
  unfold in_int16, int16_of_bytes. cbv zeta.
  pose proof (Z_of_byte_range lo). pose proof (Z_of_byte_range hi).
  destruct (Z.geb_spec (Z_of_byte lo + 256 * Z_of_byte hi) 32768); lia.
Qed.

(** Writing back the element read from two bytes gives the two bytes. *)
Lemma int16_bytes_of_bytes lo hi : int16_bytes (int16_of_bytes lo hi) = [lo; hi].
Proof.
  unfold int16_bytes, int16_of_bytes. cbv zeta.
  pose proof (Z_of_byte_range lo) as Hlo. pose proof (Z_of_byte_range hi) as Hhi.
  set (u := Z_of_byte lo + 256 * Z_of_byte hi).
  assert (Hu : (if u >=? 32768 then u - 65536 else u) mod 65536 = u).
  { destruct (Z.geb_spec u 32768).
    - replace (u - 65536) with (u + (-1) * 65536) by lia.
      rewrite Z.mod_add by lia. apply Z.mod_small. unfold u. lia.
    - apply Z.mod_small. unfold u. lia. }
  rewrite Hu.
  assert (E1 : u mod 256 = Z_of_byte lo).
  { unfold u.
    replace (Z_of_byte lo + 256 * Z_of_byte hi)
      with (Z_of_byte lo + Z_of_byte hi * 256) by lia.
    rewrite Z.mod_add by lia. apply Z.mod_small. lia. }
  assert (E2 : u / 256 = Z_of_byte hi).
  { unfold u.
    replace (Z_of_byte lo + 256 * Z_of_byte hi)
      with (Z_of_byte lo + Z_of_byte hi * 256) by lia.
    rewrite Z.div_add by lia. rewrite Z.div_small by lia. lia. }
  rewrite E1, E2, !byte_of_Z_of_byte. reflexivity.
Qed.

(** What [new Int16Array(buffer)] gives: a RangeError on an odd number of
    bytes, and otherwise half as many elements, all in range, whose bytes
    are the buffer. *)
Lemma Int16Array_of_buffer_cases (bs : list byte) :
  if Nat.odd (List.length bs)
  then Int16Array_of_buffer bs = Throw range_error
  else exists l, Int16Array_of_buffer bs = Ret l /\
                 List.length bs = (2 * List.length l)%nat /\
                 Forall in_int16 l /\
                 Int16Array_buffer l = bs.
Proof.
  induction bs as [|b|lo hi r IH] using list_ind2.
  - exists []. repeat split. constructor.
  - reflexivity.
  - change (Nat.odd (List.length (lo :: hi :: r))) with (Nat.odd (List.length r)).
    cbn [Int16Array_of_buffer].
    destruct (Nat.odd (List.length r)).
    + rewrite IH. reflexivity.
    + destruct IH as [l [E [Hlen [Hrange Hbytes]]]].
      exists (int16_of_bytes lo hi :: l). rewrite E. cbn [obind].
      split; [reflexivity|]. split; [cbn [List.length]; lia|].
      split; [constructor; [apply int16_of_bytes_range | exact Hrange]|].
      unfold Int16Array_buffer in *. cbn [flat_map].
      rewrite int16_bytes_of_bytes, Hbytes. reflexivity.
Qed.

End PcmDecoding.

(** X1: [decodeAudioData] looks at the buffer under the array it is given,
    not at the array's own extent: it rejects with a RangeError every array
    over a buffer of an odd number of bytes, whatever the view, the sample
    rate and the number of channels. *)
Theorem decodeAudioData_odd_length (data : Uint8Array) (rate : Z) (numChannels : nat) :
  Nat.odd (List.length (buffer data)) = true ->
  decodeAudioData data rate numChannels = Throw range_error.
Proof.
  intros Hodd. unfold decodeAudioData.
  pose proof (Int16Array_of_buffer_cases (buffer data)) as H. rewrite Hodd in H.
  rewrite H. reflexivity.
Qed.

(** A view of two bytes over a buffer of three is rejected. *)
Lemma decodeAudioData_odd_length_witness :
  Nat.odd (List.length (buffer {| buffer := ["001"; "002"; "003"]%byte;
                                  byteOffset := 0; byteLength := 2 |})) = true /\
  decodeAudioData {| buffer := ["001"; "002"; "003"]%byte;
                     byteOffset := 0; byteLength := 2 |} 24000 1
  = Throw range_error.
Proof.
  split; [reflexivity|].
  apply (decodeAudioData_odd_length
           {| buffer := ["001"; "002"; "003"]%byte;
              byteOffset := 0; byteLength := 2 |} 24000 1).
  reflexivity.
Defined.

(** A view of three bytes over a buffer of four is decoded, from all four
    bytes. *)
Example decodeAudioData_reads_under_the_view :
  elements {| buffer := ["000"; "128"; "255"; "127"]%byte;
              byteOffset := 1; byteLength := 3 |}
  = ["128"; "255"; "127"]%byte /\
  decodeAudioData {| buffer := ["000"; "128"; "255"; "127"]%byte;
                     byteOffset := 1; byteLength := 3 |} 24000 1
  = Ret {| numberOfChannels := 1; buffer_length := 2; sampleRate := 24000;
           channels := [[normalized (-32768); normalized 32767]] |}.
Proof. split; reflexivity. Qed.

Lemma normalized_range v : in_int16 v -> (-1 <= normalized v /\ normalized v < 1)%Q.
Proof.
  unfold in_int16, normalized. intros [Hlo Hhi].
  unfold Qdiv. change (/ 32768)%Q with (1 # 32768)%Q.
  unfold Qle, Qlt, Qmult, inject_Z. cbn. lia.
Qed.

Lemma nth_in_int16 l i : Forall in_int16 l -> in_int16 (nth i l 0%Z).
Proof.
  intros H. destruct (Nat.lt_ge_cases i (List.length l)) as [Hi|Hi].
  - apply (proj1 (Forall_forall _ _) H), nth_In, Hi.
  - rewrite nth_overflow by exact Hi. unfold in_int16. lia.
Qed.

(** X2: when [decodeAudioData] succeeds, the buffer has the channels and
    rate asked for, its length is the number of 16-bit samples in the
    buffer under the array divided by the number of channels, rounded down
    and not zero, every channel has that length, and every sample is at
    least -1 and below 1. *)
Theorem decodeAudioData_shape_and_range
    (data : Uint8Array) (rate : Z) (numChannels : nat) (audioBuffer : AudioBuffer) :
  decodeAudioData data rate numChannels = Ret audioBuffer ->
  numberOfChannels audioBuffer = numChannels /\
  sampleRate audioBuffer = rate /\
  buffer_length audioBuffer = (List.length (buffer data) / 2 / numChannels)%nat /\
  (0 < buffer_length audioBuffer)%nat /\
  List.length (channels audioBuffer) = numChannels /\
  Forall (fun channel =>
            List.length channel = buffer_length audioBuffer /\
            Forall (fun y => -1 <= y /\ y < 1)%Q channel)
         (channels audioBuffer).
Proof.
  unfold decodeAudioData.
  pose proof (Int16Array_of_buffer_cases (buffer data)) as Hcases.
  destruct (Nat.odd (List.length (buffer data))).
  { rewrite Hcases. discriminate. }
  destruct Hcases as [l [E [Hlen [Hrange _]]]]. rewrite E. cbn [obind].
  assert (Hhalf : (List.length (buffer data) / 2 = List.length l)%nat).
  { rewrite Hlen, Nat.mul_comm. apply Nat.div_mul. lia. }
  rewrite Hhalf. unfold createBuffer.
  destruct (Nat.eqb_spec numChannels 0) as [|Hc]; [discriminate|].
  destruct (32 <? numChannels)%nat; [discriminate|].
  destruct (Nat.eqb_spec (List.length l / numChannels) 0) as [|Hn]; [discriminate|].
  destruct (rate <? 8000)%Z; [discriminate|].
  destruct (96000 <? rate)%Z; [discriminate|].
  cbn [orb obind numberOfChannels buffer_length sampleRate].
  intros H. injection H as <-.
  cbn [numberOfChannels buffer_length sampleRate channels].
  repeat split; try lia.
  - rewrite length_map, length_seq. reflexivity.
  - apply Forall_map, Forall_forall. intros channel _.
    unfold channel_samples. rewrite length_map, length_seq.
    split; [reflexivity|].
    apply Forall_map, Forall_forall. intros i _.
    apply (normalized_range _ (nth_in_int16 l _ Hrange)).
Qed.

(** A view of three bytes over a buffer of four gives two frames. *)
Lemma decodeAudioData_shape_and_range_witness :
  decodeAudioData {| buffer := ["000"; "128"; "255"; "127"]%byte;
                     byteOffset := 1; byteLength := 3 |} 24000 1
  = Ret {| numberOfChannels := 1; buffer_length := 2; sampleRate := 24000;
           channels := [[normalized (-32768); normalized 32767]] |} /\
  buffer_length {| numberOfChannels := 1; buffer_length := 2; sampleRate := 24000;
                   channels := [[normalized (-32768); normalized 32767]] |}
  = (List.length (buffer {| buffer := ["000"; "128"; "255"; "127"]%byte;
                            byteOffset := 1; byteLength := 3 |}) / 2 / 1)%nat.
Proof.
  assert (E : decodeAudioData {| buffer := ["000"; "128"; "255"; "127"]%byte;
                                 byteOffset := 1; byteLength := 3 |} 24000 1
              = Ret {| numberOfChannels := 1; buffer_length := 2; sampleRate := 24000;
                       channels := [[normalized (-32768); normalized 32767]] |})
    by reflexivity.
  split; [exact E|].
  exact (proj1 (proj2 (proj2 (decodeAudioData_shape_and_range _ _ _ _ E)))).
Defined.

Lemma ToInt16_normalized v : in_int16 v -> ToInt16 (normalized v * 32768) = v.
Proof.
  intros Hv.
  assert (E : truncate (normalized v * 32768) = v).
  { unfold truncate, normalized, Qdiv, Qmult, inject_Z. cbn.
    rewrite Z.mul_1_r. apply Z.quot_mul. lia. }
  rewrite ToInt16_in_range; rewrite E; [reflexivity | exact Hv].
Qed.

Lemma map_seq_nth {A B} (f : A -> B) (l : list A) (d : A) :
  map (fun i => f (nth i l d)) (seq 0 (List.length l)) = map f l.
Proof.
  rewrite <- (nth_seq_map f l d). apply map_ext. intros i.
  now rewrite Nat.mul_1_r, Nat.add_0_r.
Qed.

(** X3: decoding at one channel and encoding again is lossless: the samples
    [decodeAudioData] gives for an array are turned by [createBlob] into
    the base64 text of exactly the bytes of the buffer under it, which for
    an array that owns its buffer, as [decode] returns, are the array's
    bytes. *)
Theorem pcm_decode_then_encode_is_lossless
    (bytes : Uint8Array) (rate : Z) (audioBuffer : AudioBuffer) :
  decodeAudioData bytes rate 1 = Ret audioBuffer ->
  exists samples,
    channels audioBuffer = [samples] /\
    List.length samples = (List.length (buffer bytes) / 2)%nat /\
    createBlob samples
    = {| data := encode (buffer bytes); mimeType := "audio/pcm;rate=16000" |}.
Proof.
  unfold decodeAudioData.
  pose proof (Int16Array_of_buffer_cases (buffer bytes)) as Hcases.
  destruct (Nat.odd (List.length (buffer bytes))).
  { rewrite Hcases. discriminate. }
  destruct Hcases as [l [E [Hlen [Hrange Hbytes]]]]. rewrite E. cbn [obind].
  rewrite Nat.div_1_r.
  destruct (createBuffer 1 (List.length l) rate) as [b|e]; [|discriminate].
  cbn [obind seq map]. intros H. injection H as <-. cbn [channels].
  exists (map normalized l). split.
  - f_equal. unfold channel_samples. exact (nth_seq_map normalized l 0%Z).
  - split.
    + rewrite length_map, Hlen, Nat.mul_comm, Nat.div_mul by lia. reflexivity.
    + unfold createBlob. rewrite map_map.
      rewrite (map_ext_in _ (fun v => v)).
      * rewrite map_id, Hbytes. reflexivity.
      * intros v Hv.
        apply ToInt16_normalized, (proj1 (Forall_forall _ _) Hrange), Hv.
Qed.

(** An array that owns its four bytes. *)
Lemma pcm_decode_then_encode_is_lossless_witness :
  exists samples,
    channels {| numberOfChannels := 1; buffer_length := 2; sampleRate := 24000;
                channels := [[normalized (-32768); normalized 32767]] |}
    = [samples] /\
    List.length samples = (List.length ["000"; "128"; "255"; "127"]%byte / 2)%nat /\
    createBlob samples
    = {| data := encode ["000"; "128"; "255"; "127"]%byte;
         mimeType := "audio/pcm;rate=16000" |}.
Proof.
  apply (pcm_decode_then_encode_is_lossless ["000"; "128"; "255"; "127"]%byte 24000).
  reflexivity.
Defined.

Lemma nth_interleave_left left right i :
  List.length left = List.length right ->
  nth (i * 2 + 0) (interleave left right) 0%Z = nth i left 0%Z.
Proof.
  revert right i. induction left as [|l ls IH]; intros [|r rs] i Hlen;
    try discriminate.
  - cbn. now destruct (i * 2 + 0)%nat, i.
  - destruct i as [|i]; [reflexivity|].
    cbn [interleave]. change (S i * 2 + 0)%nat with (S (S (i * 2 + 0))).
    cbn [nth]. apply IH. now injection Hlen.
Qed.

Lemma nth_interleave_right left right i :
  List.length left = List.length right ->
  nth (i * 2 + 1) (interleave left right) 0%Z = nth i right 0%Z.
Proof.
  revert right i. induction left as [|l ls IH]; intros [|r rs] i Hlen;
    try discriminate.
  - cbn. now destruct (i * 2 + 1)%nat, i.
  - destruct i as [|i]; [reflexivity|].
    cbn [interleave]. change (S i * 2 + 1)%nat with (S (S (i * 2 + 1))).
    cbn [nth]. apply IH. now injection Hlen.
Qed.

Lemma interleave_length left right :
  List.length left = List.length right ->
  List.length (interleave left right) = (List.length left * 2)%nat.
Proof.
  revert right. induction left as [|l ls IH]; intros [|r rs] Hlen;
    try discriminate; [reflexivity|].
  cbn [interleave List.length]. rewrite (IH rs) by now injection Hlen. lia.
Qed.

Lemma interleave_in_int16 left right :
  Forall in_int16 left -> Forall in_int16 right ->
  Forall in_int16 (interleave left right).
Proof.
  intros Hl. revert right. induction Hl as [|l ls H _ IH]; intros right Hr.
  - constructor.
  - destruct Hr as [|r rs H' Hrs]; [constructor|].
    cbn [interleave]. constructor; [exact H|].
    constructor; [exact H' | apply IH, Hrs].
Qed.

(** X4: at two channels, and a sample rate every host supports,
    [decodeAudioData] undoes interleaving: an array that owns the bytes of
    left and right samples taken in turn decodes to a left channel and a
    right channel holding those samples over 32768. *)
Theorem decodeAudioData_deinterleaves (left right : list Z) (rate : Z) :
  List.length left = List.length right ->
  left <> [] ->
  Forall in_int16 left -> Forall in_int16 right ->
  (8000 <= rate <= 96000)%Z ->
  decodeAudioData (Int16Array_buffer (interleave left right)) rate 2
  = Ret {| numberOfChannels := 2; buffer_length := List.length left;
           sampleRate := rate;
           channels := [map normalized left; map normalized right] |}.
Proof.
  intros Hlen Hne Hl Hr Hrate. unfold decodeAudioData. cbn [buffer Uint8Array_of].
  rewrite (Int16Array_round_trip _ (interleave_in_int16 _ _ Hl Hr)).
  cbn [obind]. rewrite (interleave_length _ _ Hlen), Nat.div_mul by lia.
  unfold createBuffer.
  destruct (Nat.eqb_spec (List.length left) 0) as [E|_].
  { destruct left; [contradiction | discriminate]. }
  destruct (Z.ltb_spec rate 8000); [lia|].
  destruct (Z.ltb_spec 96000 rate); [lia|].
  cbn [Nat.eqb Nat.ltb Nat.leb orb obind numberOfChannels buffer_length sampleRate
       seq map].
  do 3 f_equal; [|f_equal].
  - unfold channel_samples.
    rewrite (map_ext _ (fun i => normalized (nth i left 0%Z))).
    + apply map_seq_nth.
    + intros i. unfold normalized. now rewrite (nth_interleave_left _ _ i Hlen).
  - unfold channel_samples. rewrite Hlen.
    rewrite (map_ext _ (fun i => normalized (nth i right 0%Z))).
    + apply map_seq_nth.
    + intros i. unfold normalized. now rewrite (nth_interleave_right _ _ i Hlen).
Qed.

Lemma decodeAudioData_deinterleaves_witness :
  decodeAudioData (Int16Array_buffer (interleave [1; -2]%Z [300; -32768]%Z)) 24000 2
  = Ret {| numberOfChannels := 2; buffer_length := 2; sampleRate := 24000;
           channels := [map normalized [1; -2]%Z;
                        map normalized [300; -32768]%Z] |}.
Proof.
  apply (decodeAudioData_deinterleaves [1; -2]%Z [300; -32768]%Z 24000).
  - reflexivity.
  - discriminate.
  - repeat constructor; cbv; discriminate.
  - repeat constructor; cbv; discriminate.
  - lia.
Defined.

(** ** The crisis check *)

Lemma toLowerCase_app a b : toLowerCase (a ++ b) = toLowerCase a ++ toLowerCase b.
Proof.
  induction a as [|c a IH]; cbn [append toLowerCase]; [reflexivity|].
  now rewrite IH.
Qed.

(** X5: [checkSuicidalIntent] flags every text that contains one of the
    keywords in any mix of upper and lower case, wherever it stands in the
    text. *)
Theorem checkSuicidalIntent_any_case (before phrase after keyword : string) :
  In keyword suicideKeywords ->
  toLowerCase phrase = keyword ->
  checkSuicidalIntent (before ++ phrase ++ after) = true.
Proof.
  intros Hin Hlower. unfold checkSuicidalIntent.
  apply existsb_exists. exists keyword. split; [exact Hin|].
  rewrite !toLowerCase_app, Hlower. apply includes_app.
Qed.

Lemma checkSuicidalIntent_any_case_witness :
  In "want to die" suicideKeywords /\
  toLowerCase "Want To DIE" = "want to die" /\
  checkSuicidalIntent ("Some days I " ++ "Want To DIE" ++ ", honestly") = true.
Proof.
  assert (Hin : In "want to die" suicideKeywords) by (cbn; tauto).
  split; [exact Hin|]. split; [reflexivity|].
  exact (checkSuicidalIntent_any_case "Some days I " "Want To DIE" ", honestly"
           "want to die" Hin eq_refl).
Defined.

(** ** [handleApiError] *)

(** X6: on a [DOMException] named [AbortError], [handleApiError] shows no
    error: both error states are cleared, the loading and connecting flags
    are reset, and nothing is called but the console. *)
Theorem handleApiError_abort_is_silent
    (error : JsError) (context : string) (s : AppState) :
  is_abort error = true ->
  let s' := exec (handleApiError error context) s in
  result (handleApiError error context) s = Ret tt /\
  textError (ui s') = None /\ liveError (ui s') = None /\
  isLoadingText (ui s') = false /\ liveApiConnecting (ui s') = false /\
  trace s' = (trace s ++ [Console "error" ("Error in " ++ context ++ ":");
                          Console "debug" (context ++ " aborted by user.")])%list.
Proof.
  intros Habort. cbv zeta. unfold handleApiError, result, exec.
  rewrite run_bind, run_emit, Habort.
  destruct s as [u r rx tr fr]. run. rewrite <- !app_assoc.
  repeat split.
Qed.

Lemma handleApiError_abort_is_silent_witness :
  is_abort (DOMException "AbortError" "The user aborted a request.") = true /\
  let s' := exec (handleApiError (DOMException "AbortError" "The user aborted a request.")
                                 "text generation") live_state in
  result (handleApiError (DOMException "AbortError" "The user aborted a request.")
                         "text generation") live_state = Ret tt /\
  textError (ui s') = None /\ liveError (ui s') = None /\
  isLoadingText (ui s') = false /\ liveApiConnecting (ui s') = false /\
  trace s' = (trace live_state
                ++ [Console "error" ("Error in " ++ "text generation" ++ ":");
                    Console "debug" ("text generation" ++ " aborted by user.")])%list.
Proof.
  split; [reflexivity|].
  apply (handleApiError_abort_is_silent
           (DOMException "AbortError" "The user aborted a request.")
           "text generation" live_state).
  reflexivity.
Defined.

(** X7: for an error that is not an abort, [handleApiError] logs the error
    and then, exactly when the message contains
    "Requested entity was not found.", alerts the user before anything
    else; when the message does not contain it, the console log is its
    only call. *)
Theorem handleApiError_alerts_on_missing_entity
    (error : JsError) (context : string) (s : AppState) :
  is_abort error = false ->
  exists rest,
    trace (exec (handleApiError error context) s)
    = (trace s ++ Console "error" ("Error in " ++ context ++ ":") :: rest)%list /\
    if includes (errorMessage error context) "Requested entity was not found."
    then exists after,
        rest = Alert "API Key might be invalid or not selected. Please select your API key again."
               :: after
    else rest = [].
Proof.
  intros Habort. unfold handleApiError, exec.
  rewrite run_bind, run_emit, Habort.
  destruct s as [u r rx tr fr].
  destruct (includes (errorMessage error context) "Requested entity was not found.");
    eexists; (split; [run; rewrite <- ?app_assoc; reflexivity|]).
  - eexists. reflexivity.
  - reflexivity.
Qed.

Lemma handleApiError_alerts_on_missing_entity_witness :
  is_abort (ErrorObj "Error" "404: Requested entity was not found.") = false /\
  includes (errorMessage (ErrorObj "Error" "404: Requested entity was not found.")
                         "Live API connection")
           "Requested entity was not found." = true /\
  exists rest after,
    trace (exec (handleApiError (ErrorObj "Error" "404: Requested entity was not found.")
                                "Live API connection") initial_state)
    = Console "error" "Error in Live API connection:" :: rest /\
    rest = Alert "API Key might be invalid or not selected. Please select your API key again."
           :: after.
Proof.
  split; [reflexivity|]. split; [reflexivity|].
  destruct (handleApiError_alerts_on_missing_entity
              (ErrorObj "Error" "404: Requested entity was not found.")
              "Live API connection" initial_state eq_refl) as [rest [E H]].
  exists rest. cbn [initial_state trace app] in E.
  change (includes _ _) with true in H. cbv iota in H.
  destruct H as [after H]. exists after. split; [exact E | exact H].
Defined.

Lemma handleApiError_frame (error : JsError) (context : string) (s : AppState) :
  only_errors_changed s (exec (handleApiError error context) s).
Proof.
  unfold handleApiError, exec, only_errors_changed.
  rewrite run_bind, run_emit.
  destruct s as [u r rx tr fr].
  destruct (is_abort error);
    [|destruct (includes (errorMessage error context)
                  "Requested entity was not found.")];
    run; repeat split.
Qed.

(** X8: whatever the error, [handleApiError] changes nothing but the two
    error states and the loading and connecting flags: no ref, no registered
    reaction, no transcription and neither the connected nor the speaking
    flag. *)
Theorem handleApiError_changes_only_errors
    (error : JsError) (context : string) (s : AppState) :
  only_errors_changed s (exec (handleApiError error context) s).
Proof.
  exact (handleApiError_frame error context s).
Qed.

(** ** The shared output context *)

(** X9: [getOutputAudioContext] creates the output context at most once: a
    call leaves the context it returns in the ref, and a second call returns
    that same context and changes nothing. *)
Theorem getOutputAudioContext_is_created_once (s : AppState) :
  exists ctx,
    result getOutputAudioContext s = Ret ctx /\
    outputAudioContextRef (refs (exec getOutputAudioContext s)) = Some ctx /\
    getOutputAudioContext (exec getOutputAudioContext s)
    = (Ret ctx, exec getOutputAudioContext s).
Proof.
  destruct s as [u r rx tr fr].
  destruct r as [ac [ctx|] nx srcs ms sp sess an frame cv].
  - exists ctx. repeat split.
  - exists fr. repeat split.
Qed.

(** ** The session callbacks *)

(** X10: a message whose input transcription triggers the crisis check is
    answered by the notice and a full teardown and nothing else: the state
    is the one [stopLiveConversation] leaves after the log and the alert,
    so the message's transcriptions are not appended and its audio is not
    played. *)
Theorem onmessage_crisis_stops_conversation
    (message : LiveServerMessage) (currentTime : Q) (throws : bool) (s : AppState) :
  alarming message = true ->
  onmessage message currentTime throws s
  = (Ret tt,
     stopped (set_trace (trace s ++ [Console "log" "Live API message:";
                                     Alert crisis_notice]) s)).
Proof.
  intros Halarm. unfold onmessage.
  rewrite run_bind, run_emit, Halarm.
  rewrite run_bind, run_emit, stopLiveConversation_stopped.
  destruct s as [u r rx tr fr]. unfold set_trace. cbn [trace ui refs reactions fresh].
  rewrite <- app_assoc. reflexivity.
Qed.

Lemma onmessage_crisis_stops_conversation_witness :
  alarming {| inputTranscription := Some (Some "I feel Hopeless");
              outputTranscription := Some (Some "I hear you");
              turnComplete := false; interrupted := false;
              inlineData := Some (silent_payload 750) |} = true /\
  onmessage {| inputTranscription := Some (Some "I feel Hopeless");
               outputTranscription := Some (Some "I hear you");
               turnComplete := false; interrupted := false;
               inlineData := Some (silent_payload 750) |} (13 # 64) false live_state
  = (Ret tt,
     stopped (set_trace (trace live_state ++ [Console "log" "Live API message:";
                                              Alert crisis_notice]) live_state)).
Proof.
  split; [reflexivity|].
  apply onmessage_crisis_stops_conversation. reflexivity.
Defined.

#[local] Instance keeps_transcripts_preorder : PreOrder keeps_transcripts.
Proof.
  split.
  - intros s. split; reflexivity.
  - intros a b c [H1 H2] [H3 H4]. split; congruence.
Qed.

Ltac keeps_transcripts_leaf := split; reflexivity.

(** X11: after a message that does not trigger the crisis check, each
    transcription buffer is empty if the message completes the turn, and
    otherwise the buffer with the message's fragment appended (the literal
    [undefined] for a fragment without text); audio and interruption in the
    same message do not touch the buffers. *)
Theorem onmessage_transcripts
    (message : LiveServerMessage) (currentTime : Q) (throws : bool) (s : AppState) :
  alarming message = false ->
  let s' := exec (onmessage message currentTime throws) s in
  let after fragment previous :=
    if turnComplete message then ""
    else match fragment with
         | Some text => append_text text previous
         | None => previous
         end in
  liveInputTranscription (ui s')
  = after (inputTranscription message) (liveInputTranscription (ui s)) /\
  liveOutputTranscription (ui s')
  = after (outputTranscription message) (liveOutputTranscription (ui s)).
Proof.
  intros Hcalm. cbv zeta. unfold onmessage. rewrite Hcalm.
  rewrite exec_seq by walk idtac. set (s1 := exec (emit _) s).
  rewrite exec_seq by walk idtac. set (s2 := exec _ s1).
  rewrite exec_seq by walk idtac. set (s3 := exec _ s2).
  rewrite exec_seq by walk idtac. set (s4 := exec _ s3).
  rewrite exec_seq by walk idtac. set (s5 := exec _ s4).
  set (s6 := exec _ s5).
  assert (H5 : keeps_transcripts s4 s5)
    by (unfold s5; relate keeps_transcripts keeps_transcripts_leaf).
  assert (H6 : keeps_transcripts s5 s6)
    by (unfold s6; relate keeps_transcripts keeps_transcripts_leaf).
  destruct H5 as [A1 A2], H6 as [B1 B2]. rewrite B1, B2, A1, A2.
  unfold s4, s3, s2, s1. destruct s as [u r rx tr fr].
  destruct (outputTranscription message), (inputTranscription message),
    (turnComplete message); split; reflexivity.
Qed.

Lemma onmessage_transcripts_witness :
  alarming {| inputTranscription := Some (Some " there");
              outputTranscription := Some None;
              turnComplete := false; interrupted := false;
              inlineData := None |} = false /\
  let s' := exec (onmessage {| inputTranscription := Some (Some " there");
                               outputTranscription := Some None;
                               turnComplete := false; interrupted := false;
                               inlineData := None |} (13 # 64) false) live_state in
  liveInputTranscription (ui s') = "hello there" /\
  liveOutputTranscription (ui s') = "undefined".
Proof.
  split; [reflexivity|].
  exact (onmessage_transcripts
           {| inputTranscription := Some (Some " there");
              outputTranscription := Some None;
              turnComplete := false; interrupted := false;
              inlineData := None |} (13 # 64) false live_state eq_refl).
Defined.

(** X12: the callbacks that call neither the decoder, the output context
    nor the error reporter let no exception escape, from any state and on
    any input: a throwing [stop()], a rejected session promise, a throwing
    session method and a rejected [close()] all end in a handler of the
    callback itself.  These are the socket's error and close events, the
    capture callback, the reactions registered on the session promise, the
    [ended] listeners and the unmount cleanup. *)
Theorem guarded_callbacks_never_throw :
  (forall message, returns (onerror message)) /\
  (forall code reason, returns (onclose code reason)) /\
  (forall inputData, returns (onaudioprocess inputData)) /\
  (forall settled method_throws r, returns (run_reaction settled method_throws r)) /\
  (forall message source, returns (source_ended message source)) /\
  (forall source, returns (speech_ended source)) /\
  returns unmount.
Proof.
  repeat split; intros.
  - unfold onerror; walk idtac.
  - unfold onclose; walk idtac.
  - unfold onaudioprocess; walk idtac.
  - apply run_reaction_returns.
  - unfold source_ended; walk idtac.
  - unfold speech_ended; walk idtac.
  - unfold unmount; walk idtac.
Qed.

(** X13: [onerror] reports and tears down: the live error is
    "Live API Error: " followed by the event's message, or by
    "Unknown error" when the message is absent or empty, and the state is
    otherwise the one [stopLiveConversation] leaves; the teardown does not
    clear the error. *)
Theorem onerror_reports_and_tears_down (message : option string) (s : AppState) :
  let shown := "Live API Error: " ++ match message with
                                     | Some EmptyString | None => "Unknown error"
                                     | Some m => m
                                     end in
  onerror message s
  = (Ret tt,
     stopped (set_ui (set_liveError (Some shown) (ui s))
                (set_trace (trace s ++ [Console "error" "Live API error:"]) s))) /\
  liveError (ui (exec (onerror message) s)) = Some shown.
Proof.
  cbv zeta.
  assert (E : onerror message s
              = (Ret tt,
                 stopped (set_ui (set_liveError
                            (Some ("Live API Error: " ++ match message with
                                                         | Some EmptyString | None => "Unknown error"
                                                         | Some m => m
                                                         end)) (ui s))
                            (set_trace (trace s ++ [Console "error" "Live API error:"]) s)))).
  { unfold onerror. rewrite run_bind, run_emit.
    rewrite run_bind. cbn [setLiveError on_ui modify].
    rewrite stopLiveConversation_stopped.
    destruct message as [[|c m]|]; reflexivity. }
  split; [exact E|].
  rewrite (run_exec _ _ _ _ E). reflexivity.
Qed.

(** X14: a user stop followed by the normal close event (code 1000) that it
    causes shows no error: the live error is what it was, the transcription
    buffers are empty, the flags are down and the refs are those the stop
    left. *)
Theorem stop_then_normal_close_shows_no_error (reason : string) (s : AppState) :
  let s' := exec (onclose 1000 reason) (exec stopLiveConversation s) in
  liveError (ui s') = liveError (ui s) /\
  refs s' = stopped_refs (refs s) /\
  liveInputTranscription (ui s') = "" /\
  liveOutputTranscription (ui s') = "" /\
  isLiveApiConnected (ui s') = false /\
  liveApiConnecting (ui s') = false /\
  isAssistantSpeaking (ui s') = false.
Proof.
  cbv zeta. rewrite (run_exec _ _ _ _ (stopLiveConversation_stopped s)).
  unfold onclose, exec. rewrite run_bind, run_emit.
  destruct s as [u r rx tr fr]. run. repeat split.
Qed.

(** X15: the end state of [stopLiveConversation] is a function of the start
    state: each held resource is released once, in the order microphone
    tracks, script processor, analyser, input context, playing sources,
    animation frame, and an absent one is skipped; every such ref is
    cleared; one close is registered on a held session promise; the output
    context, the errors and the transcriptions are not touched. *)
Theorem stopLiveConversation_end_state (s : AppState) :
  stopLiveConversation s = (Ret tt, stopped s).
Proof.
  exact (stopLiveConversation_stopped s).
Qed.

(** X16: a teardown cancels no send that is already registered: a frame
    captured while the session promise is held stays registered, ahead of
    the close the teardown registers on the same promise. *)
Theorem teardown_keeps_registered_sends
    (inputData : list Q) (p : nat) (s : AppState) :
  sessionPromiseRef (refs s) = Some p ->
  reactions (exec stopLiveConversation (exec (onaudioprocess inputData) s))
  = (reactions s ++ [(p, SendRealtimeInput (createBlob inputData));
                     (p, CloseSession)])%list.
Proof.
  intros Hp.
  rewrite (run_exec _ _ _ _ (stopLiveConversation_stopped _)).
  unfold onaudioprocess, exec. rewrite run_bind. cbn [get]. rewrite Hp.
  cbn. rewrite Hp, <- app_assoc. reflexivity.
Qed.

Lemma teardown_keeps_registered_sends_witness :
  sessionPromiseRef (refs live_state) = Some 4%nat /\
  reactions (exec stopLiveConversation (exec (onaudioprocess [1 # 2]%Q) live_state))
  = (reactions live_state ++ [(4%nat, SendRealtimeInput (createBlob [1 # 2]%Q));
                              (4%nat, CloseSession)])%list.
Proof.
  split; [reflexivity|].
  exact (teardown_keeps_registered_sends [1 # 2]%Q 4 live_state eq_refl).
Defined.

(** ** Speech playback *)

Lemma try_lift_ret {A B} (a : A) (f : A -> M B) h s :
  try_catch (bind (lift (Ret a)) f) h s = try_catch (f a) h s.
Proof. reflexivity. Qed.


Lemma try_catch_thrown {A} (m : M A) h s e s1 :
  m s = (Throw e, s1) -> try_catch m h s = h e s1.
Proof. unfold try_catch. now intros ->. Qed.

Lemma try_throw {A} e (h : JsError -> M A) s : try_catch (throw e) h s = h e s.
Proof. reflexivity. Qed.

(** [getOutputAudioContext], in closed form. *)
Lemma getOutputAudioContext_run s :
  getOutputAudioContext s
  = (Ret match outputAudioContextRef (refs s) with
         | Some ctx => ctx
         | None => fresh s
         end,
     set_fresh match outputAudioContextRef (refs s) with
               | Some _ => fresh s
               | None => S (fresh s)
               end
       (set_refs (set_outputAudioContextRef
                    (Some match outputAudioContextRef (refs s) with
                          | Some ctx => ctx
                          | None => fresh s
                          end) (refs s))
          (set_trace (trace s ++ output_context_calls (refs s) (fresh s)) s))).
Proof.
  destruct s as [u r rx tr fr].
  destruct r as [ac [ctx|] nx srcs ms sp sess an frame cv];
    unfold getOutputAudioContext, output_context_calls; run;
    rewrite <- ?app_assoc, ?app_nil_r; reflexivity.
Qed.

(** [playGeneratedAudio] on a payload that decodes, in closed form. *)
Lemma playGeneratedAudio_decoded base64Audio currentTime throws audioBuffer s :
  obind (decode base64Audio) (fun bytes => decodeAudioData bytes 24000 1)
  = Ret audioBuffer ->
  let id := match outputAudioContextRef (refs s) with
            | Some _ => fresh s
            | None => S (fresh s)
            end in
  let source := {| source_id := id; source_buffer := audioBuffer;
                   stop_throws := throws |} in
  playGeneratedAudio base64Audio currentTime throws s
  = (Ret true,
     {| ui := set_isAssistantSpeaking true (set_textError None (ui s));
        refs := set_sourcesRef [source]
                  (set_nextStartTimeRef 0
                     (set_outputAudioContextRef
                        (Some match outputAudioContextRef (refs s) with
                              | Some ctx => ctx
                              | None => fresh s
                              end) (refs s)));
        reactions := reactions s;
        trace := (trace s
                    ++ stop_calls "Could not stop audio source, it might have already ended:"
                         (sourcesRef (refs s))
                    ++ output_context_calls (refs s) (fresh s)
                    ++ [SourceConnect id; SourceStart source currentTime])%list;
        fresh := S id |}).
Proof.
  intros Hdecode. cbv zeta. unfold playGeneratedAudio.
  rewrite run_bind. cbn [setTextError on_ui modify].
  rewrite run_bind, stopAllAudioPlayback_run.
  rewrite run_bind, getOutputAudioContext_run.
  rewrite Hdecode, try_lift_ret. unfold try_catch.
  destruct s as [u r rx tr fr]. run.
  rewrite <- !app_assoc. reflexivity.
Qed.


Lemma scheduled_stop_calls label l : scheduled (stop_calls label l) = [].
Proof.
  induction l as [|x l IH]; [reflexivity|].
  cbn [stop_calls flat_map]. rewrite scheduled_app.
  fold (stop_calls label l). rewrite IH.
  destruct (stop_throws x); reflexivity.
Qed.

(** X17: [playGeneratedAudio] on a payload that decodes replaces whatever
    was playing: [stop()] is called on every source that was active, the
    new source is the only one in the set, it starts at the clock reading
    given, the speaking flag is up, the text error is cleared and the
    live-stream cursor is left at 0. *)
Theorem playGeneratedAudio_replaces_playback
    (base64Audio : string) (currentTime : Q) (throws : bool)
    (audioBuffer : AudioBuffer) (s : AppState) :
  obind (decode base64Audio) (fun bytes => decodeAudioData bytes 24000 1)
  = Ret audioBuffer ->
  let s' := exec (playGeneratedAudio base64Audio currentTime throws) s in
  result (playGeneratedAudio base64Audio currentTime throws) s = Ret true /\
  (exists source,
      sourcesRef (refs s') = [source] /\
      source_buffer source = audioBuffer /\
      scheduled (trace s')
      = (scheduled (trace s) ++ [(currentTime, duration audioBuffer)])%list) /\
  (forall old, In old (sourcesRef (refs s)) ->
               In (SourceStop (source_id old)) (trace s')) /\
  isAssistantSpeaking (ui s') = true /\
  textError (ui s') = None /\
  nextStartTimeRef (refs s') = 0%Q.
Proof.
  intros Hdecode. cbv zeta.
  pose proof (playGeneratedAudio_decoded base64Audio currentTime throws
                audioBuffer s Hdecode) as E. cbv zeta in E.
  rewrite (run_result _ _ _ _ E), (run_exec _ _ _ _ E).
  cbn [ui refs trace sourcesRef set_sourcesRef nextStartTimeRef
       set_nextStartTimeRef].
  split; [reflexivity|]. split; [|split; [|repeat split]].
  - eexists. split; [reflexivity|]. split; [reflexivity|].
    rewrite !scheduled_app.
    rewrite scheduled_stop_calls. unfold output_context_calls.
    destruct (outputAudioContextRef (refs s)); reflexivity.
  - intros old Hin. apply in_or_app. right. apply in_or_app. left.
    apply stop_calls_complete, Hin.
Qed.

Lemma playGeneratedAudio_replaces_playback_witness :
  obind (decode (silent_payload 4)) (fun bytes => decodeAudioData bytes 24000 1)
  = Ret {| numberOfChannels := 1; buffer_length := 4; sampleRate := 24000;
           channels := [repeat (normalized 0) 4] |} /\
  result (playGeneratedAudio (silent_payload 4) (5 # 16) false) live_state
  = Ret true /\
  isAssistantSpeaking
    (ui (exec (playGeneratedAudio (silent_payload 4) (5 # 16) false) live_state))
  = true.
Proof.
  assert (E : obind (decode (silent_payload 4))
                    (fun bytes => decodeAudioData bytes 24000 1)
              = Ret {| numberOfChannels := 1; buffer_length := 4;
                       sampleRate := 24000;
                       channels := [repeat (normalized 0) 4] |})
    by (vm_compute; reflexivity).
  split; [exact E|].
  pose proof (playGeneratedAudio_replaces_playback (silent_payload 4) (5 # 16)
                false _ live_state E) as H.
  cbv zeta in H. destruct H as [H1 [_ [_ [H4 _]]]].
  split; [exact H1 | exact H4].
Defined.



(** ** Text to speech *)



(** X20: when the service answers a non-empty text without audio data,
    [handleTextToSpeech] answers [false], shows
    "No audio data received for TTS." as text error and as live error, and
    leaves playback as it is: nothing is stopped and nothing is started. *)
Theorem handleTextToSpeech_without_audio
    (textToSpeak voiceName : string) (data : option string)
    (currentTime : Q) (throws : bool) (s : AppState) :
  textToSpeak <> "" ->
  truthy data = None ->
  let run := handleTextToSpeech textToSpeak voiceName (Ret data) currentTime throws in
  result run s = Ret false /\
  textError (ui (exec run s)) = Some "No audio data received for TTS." /\
  liveError (ui (exec run s)) = Some "No audio data received for TTS." /\
  refs (exec run s) = refs s /\
  trace (exec run s) = (trace s ++ [Console "error" "Error in text-to-speech:"])%list.
Proof.
  intros Htext Hdata. cbv zeta. unfold handleTextToSpeech, result, exec.
  destruct textToSpeak as [|c text]; [contradiction|].
  rewrite run_bind. cbn [setTextError on_ui modify].
  rewrite try_lift_ret, Hdata, try_throw.
  unfold handleApiError. destruct s as [u r rx tr fr]. run.
  repeat split.
Qed.

Lemma handleTextToSpeech_without_audio_witness :
  "Hello" <> "" /\ truthy (Some "") = None /\
  result (handleTextToSpeech "Hello" "Kore" (Ret (Some "")) (5 # 16) false)
         live_state = Ret false.
Proof.
  assert (H : "Hello" <> "") by discriminate.
  split; [exact H|]. split; [reflexivity|].
  exact (proj1 (handleTextToSpeech_without_audio "Hello" "Kore" (Some "")
                  (5 # 16) false live_state H eq_refl)).
Defined.

(** ** Starting a conversation *)

(** Like [compute_state], but binds stay folded, so that a callback is
    run one statement at a time. *)
Ltac compute_step :=
  cbv beta iota zeta delta
    [
     lift throw ret get modify when on_ui on_refs
     setTextError setLiveError setIsLoadingText setIsLiveApiConnected
     setLiveApiConnecting setIsAssistantSpeaking
     setLiveInputTranscription setLiveOutputTranscription new_object
     textError liveError isLoadingText isLiveApiConnected
     liveApiConnecting liveInputTranscription liveOutputTranscription
     isAssistantSpeaking audioContextRef outputAudioContextRef
     nextStartTimeRef sourcesRef mediaStreamRef scriptProcessorRef
     sessionPromiseRef analyserRef animationFrameIdRef canvasRef ui refs
     reactions trace fresh set_textError set_liveError set_isLoadingText
     set_isLiveApiConnected set_liveApiConnecting
     set_liveInputTranscription set_liveOutputTranscription
     set_isAssistantSpeaking set_audioContextRef
     set_outputAudioContextRef set_nextStartTimeRef set_sourcesRef
     set_mediaStreamRef set_scriptProcessorRef set_sessionPromiseRef
     set_analyserRef set_animationFrameIdRef set_canvasRef set_ui
     set_refs set_reactions set_trace set_fresh context2d painted tracks
     negb andb orb N.eqb fst snd ].

Ltac run_start :=
  try compute_step;
  repeat (first [ rewrite run_emit | rewrite getOutputAudioContext_run
                | rewrite run_bind ]; try compute_step).

(** [startLiveConversation] when nothing fails, in closed form. *)
Lemma startLiveConversation_started url env s :
  start_failure env = None ->
  exists stream,
    getUserMedia env = Ret stream /\
    startLiveConversation url env s
    = (Ret tt, started stream (prompts env) url s).
Proof.
  destruct env as [[] [[]|e1] [[]|e2] [stream|e3]]; try discriminate; intros _;
    exists stream; (split; [reflexivity|]);
    unfold startLiveConversation, started, try_catch, prompts;
    destruct s as [u r rx tr fr];
    cbn [negb andb aistudio_available hasSelectedApiKey openSelectKey getUserMedia];
    run_start; unfold output_context_calls; compute_state;
    rewrite <- ?app_assoc; reflexivity.
Qed.

(** [startLiveConversation] when its [try] block throws: the handler runs
    from a state in which nothing has been acquired. *)
Lemma startLiveConversation_failed url env error s :
  start_failure env = Some error ->
  exists s1,
    startLiveConversation url env s
    = (Ret tt, stopped (exec (handleApiError error "Live API connection") s1)) /\
    refs s1 = refs s /\ reactions s1 = reactions s /\ fresh s1 = fresh s.
Proof.
  intros Hfail.
  assert (Hhandler : forall s1,
    (handleApiError error "Live API connection" ;; stopLiveConversation) s1
    = (Ret tt, stopped (exec (handleApiError error "Live API connection") s1))).
  { intros s1. rewrite run_bind.
    assert (Hret : returns (handleApiError error "Live API connection"))
      by (unfold handleApiError; walk idtac).
    pose proof (returns_unit _ s1 Hret) as Hres. unfold result, exec in *.
    destruct (handleApiError error "Live API connection" s1) as [o s2].
    cbn in Hres. subst o. apply stopLiveConversation_stopped. }
  unfold startLiveConversation.
  set (handler := fun error : JsError =>
                    handleApiError error "Live API connection" ;;
                    stopLiveConversation).
  destruct s as [u r rx tr fr].
  destruct env as [[] [[]|e1] [[]|e2] [stream|e3]]; cbn in Hfail;
    try discriminate; injection Hfail as <-;
    eexists; (split; [|split; [|split]]);
    try (unfold try_catch;
         cbn [negb aistudio_available hasSelectedApiKey openSelectKey getUserMedia];
         run_start; subst handler; cbv beta; apply Hhandler);
    reflexivity.
Qed.

Lemma stopped_holds_nothing s : nothing_held (refs (stopped s)).
Proof. repeat split. Qed.

(** X21: [startLiveConversation] acquires everything or nothing.  When no
    step fails, the stream, a new input context and a new session promise
    are in their refs, the connecting flag is up and the live error is
    cleared.  When a step fails (SDK missing, key query or key selection
    rejected, microphone refused), no conversation resource is held
    afterwards, no object was created (so no connection was attempted), the
    connecting flag is down and, unless the failure is an abort, the live
    error is the failure's message. *)
Theorem startLiveConversation_all_or_nothing
    (url : string) (env : StartEnv) (s : AppState) :
  let s' := exec (startLiveConversation url env) s in
  match start_failure env with
  | None =>
      (exists stream, getUserMedia env = Ret stream /\
                      mediaStreamRef (refs s') = Some stream) /\
      audioContextRef (refs s') = Some (fresh s) /\
      (exists promise, sessionPromiseRef (refs s') = Some promise /\
                       (fresh s < promise)%nat) /\
      liveApiConnecting (ui s') = true /\
      liveError (ui s') = None
  | Some error =>
      nothing_held (refs s') /\
      fresh s' = fresh s /\
      liveApiConnecting (ui s') = false /\
      (is_abort error = false ->
       liveError (ui s') = Some (errorMessage error "Live API connection"))
  end.
Proof.
  cbv zeta. destruct (start_failure env) as [error|] eqn:Hfail.
  - destruct (startLiveConversation_failed url env error s Hfail)
      as [s1 [E [Hrefs [_ Hfresh]]]].
    rewrite (run_exec _ _ _ _ E).
    split; [apply stopped_holds_nothing|].
    destruct (handleApiError_frame error "Live API connection" s1)
      as [_ [_ [Hf _]]].
    split; [cbn; congruence|]. split; [reflexivity|].
    intros Habort.
    destruct (handleApiError_run error "Live API connection" s1 Habort)
      as [added [Hrun _]].
    rewrite (run_exec _ _ _ _ Hrun). reflexivity.
  - destruct (startLiveConversation_started url env s Hfail) as [stream [Hmedia E]].
    rewrite (run_exec _ _ _ _ E). unfold started. cbn.
    split; [exists stream; split; [exact Hmedia | reflexivity]|].
    split; [reflexivity|]. split; [|split; reflexivity].
    eexists. split; [reflexivity|].
    destruct (outputAudioContextRef (refs s)); lia.
Qed.

Example microphone_refused :
  let s' := exec (startLiveConversation "https://example.test/billing" refused)
                 initial_state in
  liveError (ui s') = Some "Permission denied" /\
  textError (ui s') = Some "Permission denied" /\
  liveApiConnecting (ui s') = false /\
  sessionPromiseRef (refs s') = None /\
  trace s' = [Console "error" "Error in Live API connection:"].
Proof. vm_compute. repeat split. Qed.

Lemma filter_teardown_tracks l : filter is_teardown (map TrackStop l) = map TrackStop l.
Proof. induction l as [|t l IH]; cbn; [reflexivity | now rewrite IH]. Qed.

(** X22: a conversation started from a state that holds nothing and stopped
    again gives back exactly what the start took: the tracks of the stream
    are stopped and the new input context is closed, each once and nothing
    else is torn down; one close is registered on the new session promise;
    and again nothing is held. *)
Theorem start_then_stop_gives_everything_back
    (url : string) (env : StartEnv) (s : AppState) :
  start_failure env = None ->
  nothing_held (refs s) ->
  let s1 := exec (startLiveConversation url env) s in
  let s2 := exec stopLiveConversation s1 in
  exists stream promise added,
    getUserMedia env = Ret stream /\
    sessionPromiseRef (refs s1) = Some promise /\
    reactions s2 = (reactions s ++ [(promise, CloseSession)])%list /\
    trace s2 = (trace s1 ++ added)%list /\
    filter is_teardown added
    = (map TrackStop (tracks stream) ++ [ContextClose (fresh s)])%list /\
    nothing_held (refs s2).
Proof.
  intros Hfail [_ [_ [_ [Hprocessor [Hanalyser Hsources]]]]]. cbv zeta.
  destruct (startLiveConversation_started url env s Hfail) as [stream [Hmedia E]].
  rewrite (run_exec _ _ _ _ E).
  rewrite (run_exec _ _ _ _ (stopLiveConversation_stopped _)).
  exists stream. eexists. eexists.
  split; [exact Hmedia|]. split; [reflexivity|].
  split; [reflexivity|]. split; [reflexivity|].
  split; [|apply stopped_holds_nothing].
  unfold started, release_calls. cbn. rewrite Hprocessor, Hanalyser, Hsources.
  cbn. rewrite filter_app, filter_teardown_tracks. f_equal. cbn.
  destruct (animationFrameIdRef (refs s)) as [[|id]|]; reflexivity.
Qed.

Lemma start_then_stop_gives_everything_back_witness :
  start_failure granted = None /\ nothing_held (refs initial_state) /\
  exists stream promise added,
    getUserMedia granted = Ret stream /\
    sessionPromiseRef
      (refs (exec (startLiveConversation "https://example.test/billing" granted)
                  initial_state)) = Some promise /\
    reactions
      (exec stopLiveConversation
         (exec (startLiveConversation "https://example.test/billing" granted)
               initial_state))
    = (reactions initial_state ++ [(promise, CloseSession)])%list /\
    trace
      (exec stopLiveConversation
         (exec (startLiveConversation "https://example.test/billing" granted)
               initial_state))
    = (trace (exec (startLiveConversation "https://example.test/billing" granted)
                   initial_state) ++ added)%list /\
    filter is_teardown added
    = (map TrackStop (tracks stream) ++ [ContextClose (fresh initial_state)])%list /\
    nothing_held
      (refs (exec stopLiveConversation
               (exec (startLiveConversation "https://example.test/billing" granted)
                     initial_state))).
Proof.
  assert (H1 : start_failure granted = None) by reflexivity.
  assert (H2 : nothing_held (refs initial_state)) by (repeat split).
  split; [exact H1|]. split; [exact H2|].
  exact (start_then_stop_gives_everything_back "https://example.test/billing"
           granted initial_state H1 H2).
Defined.

(** ** Unmount *)

Lemma unmount_unmounted s : unmount s = (Ret tt, unmounted s).
Proof.
  unfold unmount. rewrite run_bind, stopLiveConversation_stopped.
  destruct s as [u r rx tr fr].
  destruct r as [ac [oc|] nx srcs ms sp sess an frame cv];
    unfold unmounted; run; reflexivity.
Qed.

Lemma unmounted_idempotent s : unmounted (unmounted s) = unmounted s.
Proof.
  destruct s as [u r rx tr fr].
  destruct u, r as [ac [oc|] nx srcs ms sp sess an [[|id]|] [[[] pt]|]];
    unfold unmounted, stopped, stopped_refs, release_calls; compute_state;
    cbn [stop_calls flat_map app]; rewrite ?app_nil_r; reflexivity.
Qed.

(** X23: the cleanup run on unmount throws nothing; it makes the releases
    of a teardown and then closes the output context, once, exactly when
    one was ever created; afterwards no conversation resource and no output
    context is held; and running it again changes nothing. *)
Theorem unmount_releases_the_output_context (s : AppState) :
  let s' := exec unmount s in
  result unmount s = Ret tt /\
  trace s' = (trace s ++ release_calls (refs s) ++
              match outputAudioContextRef (refs s) with
              | Some ctx => [ContextClose ctx]
              | None => []
              end)%list /\
  nothing_held (refs s') /\
  outputAudioContextRef (refs s') = None /\
  unmount s' = (Ret tt, s').
Proof.
  cbv zeta.
  rewrite (run_result _ _ _ _ (unmount_unmounted s)).
  rewrite (run_exec _ _ _ _ (unmount_unmounted s)).
  split; [reflexivity|].
  split; [|split; [|split]].
  - unfold unmounted. destruct (outputAudioContextRef (refs s)); cbn.
    + now rewrite app_assoc.
    + now rewrite app_nil_r.
  - unfold unmounted. destruct (outputAudioContextRef (refs s)); repeat split.
  - unfold unmounted. destruct (outputAudioContextRef (refs s)) eqn:E;
      [reflexivity | exact E].
  - rewrite unmount_unmounted, unmounted_idempotent. reflexivity.
Qed.

(** ** Playback after an interruption, and the life of a chunk *)



#[local] Instance keeps_sources_preorder : PreOrder keeps_sources.
Proof.
  split.
  - intros s. split; reflexivity.
  - intros a b c [A1 A2] [B1 B2]. split; congruence.
Qed.









